(** * Integrator6581: the MOS 6581 filter integrator of reSIDfp

    A shallow embedding of [residfp/Integrator6581.h] and a verification of
    its natural-language specification.

    - The C++ scalars are [float], IEEE 754 binary32.  They are modelled
      bit-exactly with the parameterised specification of floating point
      arithmetic of the Standard Library ([SpecFloat]), at [prec = 24] and
      [emax = 128], round to nearest even, one NaN.  Every expression of
      the source is evaluated in binary32 (FLT_EVAL_METHOD 0).
    - [assert] follows [<cassert>]: the build is a parameter [NDEBUG] of
      [solve]; a failed assertion aborts, the call returns nothing.
    - A [LUT] is its [output] member, a function on [float].
    - The mutable members [vx] and [vc] are threaded through [solve], which
      returns the result together with the instance after the call. *)

From Stdlib Require Import ZArith Bool List Lia.
From Stdlib Require Import QArith Qabs Lqa.
From Stdlib Require Import Floats.SpecFloat.
Import ListNotations.

Close Scope Q_scope.

Local Open Scope Z_scope.

(** ** binary32 *)

Definition float : Type := spec_float.

Module F32.

Definition prec : Z := 24.
Definition emax : Z := 128.

Definition add : float -> float -> float := SFadd prec emax.
Definition sub : float -> float -> float := SFsub prec emax.
Definition mul : float -> float -> float := SFmul prec emax.
Definition div : float -> float -> float := SFdiv prec emax.
Definition opp : float -> float := SFopp.
Definition ltb : float -> float -> bool := SFltb.
Definition leb : float -> float -> bool := SFleb.
Definition eqb : float -> float -> bool := SFeqb.

(** A value a C++ [float] can hold: canonical mantissa, exponent in range. *)
Definition valid (x : float) : bool := valid_binary prec emax x.

(** Conversion of an [int] to [float] (exact below 2^24). *)
Definition of_int (z : Z) : float := binary_normalize prec emax z 0 false.

Definition zero : float := S754_zero false.

(** The larger of [a] and [b]; [b] when [a] is not above it (or is a NaN). *)
Definition max (a b : float) : float := if ltb b a then a else b.

(** The exact value of a finite [float]. *)
Definition to_Q (x : float) : option Q :=
  match x with
  | S754_zero _ => Some 0%Q
  | S754_finite s m e =>
      let v := (inject_Z (Zpos m) * Qpower 2 e)%Q in
      Some (if s then Qopp v else v)
  | _ => None
  end.

(** [x] is finite and within [tol] of the rational [q]. *)
Definition near (x : float) (q tol : Q) : bool :=
  match to_Q x with
  | Some v => Qle_bool (Qabs (v - q)) tol
  | None => false
  end.

(** Equal as values: the same datum, or two zeros of any sign. *)
Definition sim (x y : float) : Prop :=
  x = y \/ (exists s s', x = S754_zero s /\ y = S754_zero s').

End F32.

Declare Scope f32_scope.
Delimit Scope f32_scope with f32.
Bind Scope f32_scope with float.

Infix "+" := F32.add : f32_scope.
Infix "-" := F32.sub : f32_scope.
Infix "*" := F32.mul : f32_scope.
Infix "/" := F32.div : f32_scope.
Infix "<?" := F32.ltb : f32_scope.
Infix "<=?" := F32.leb : f32_scope.
Infix "==" := F32.eqb (at level 70, no associativity) : f32_scope.

(** The literals of the source. *)
Definition f_0 : float := F32.zero.                               (* 0.        *)
Definition f_2 : float := Eval vm_compute in F32.of_int 2.        (* 2.f       *)
Definition f_65536 : float := Eval vm_compute in F32.of_int 65536.  (* 65536.f *)
Definition f_1shl15 : float := Eval vm_compute in F32.of_int (Z.shiftl 1 15).
Definition f_1shl16 : float := Eval vm_compute in F32.of_int (Z.shiftl 1 16).

(** ** Lookup tables

    [InterpolatedLUT.h] is not part of the sources at hand.  Of a [LUT] the
    integrator uses the const member [output] only, a pure function of its
    argument and of the immutable table: a table is taken as that function. *)

Record LUT : Type := { output : float -> float }.

Definition lut_ext (l1 l2 : LUT) : Prop := forall x, output l1 x = output l2 x.

(** ** The class *)

Record Integrator6581 : Type := {
  vcr_kVg : LUT;
  vcr_n_Ids_term : LUT;
  opamp_rev : LUT;
  Vddt_Vw_2 : float;
  vx : float;
  vc : float;
  kVddt : float;
  n_snake : float
}.

(** The constructor. *)
Definition Integrator6581_new (vcr_kVg vcr_n_Ids_term opamp_rev : LUT)
    (kVddt n_snake : float) : Integrator6581 :=
  {| vcr_kVg := vcr_kVg;
     vcr_n_Ids_term := vcr_n_Ids_term;
     opamp_rev := opamp_rev;
     Vddt_Vw_2 := f_0;
     vx := f_0;
     vc := f_0;
     kVddt := kVddt;
     n_snake := n_snake |}.

Definition set_Vddt_Vw_2 (self : Integrator6581) (v : float) : Integrator6581 :=
  {| vcr_kVg := vcr_kVg self;
     vcr_n_Ids_term := vcr_n_Ids_term self;
     opamp_rev := opamp_rev self;
     Vddt_Vw_2 := v;
     vx := vx self;
     vc := vc self;
     kVddt := kVddt self;
     n_snake := n_snake self |}.

Definition set_vc (self : Integrator6581) (v : float) : Integrator6581 :=
  {| vcr_kVg := vcr_kVg self;
     vcr_n_Ids_term := vcr_n_Ids_term self;
     opamp_rev := opamp_rev self;
     Vddt_Vw_2 := Vddt_Vw_2 self;
     vx := vx self;
     vc := v;
     kVddt := kVddt self;
     n_snake := n_snake self |}.

Definition set_vx (self : Integrator6581) (v : float) : Integrator6581 :=
  {| vcr_kVg := vcr_kVg self;
     vcr_n_Ids_term := vcr_n_Ids_term self;
     opamp_rev := opamp_rev self;
     Vddt_Vw_2 := Vddt_Vw_2 self;
     vx := v;
     vc := vc self;
     kVddt := kVddt self;
     n_snake := n_snake self |}.

Local Open Scope f32_scope.

(** [void setVw(float Vw)] *)
Definition setVw (self : Integrator6581) (Vw : float) : Integrator6581 :=
  set_Vddt_Vw_2 self ((kVddt self - Vw) * (kVddt self - Vw)).

(** ** [assert]

    [<cassert>]: with [NDEBUG] defined the macro expands to nothing; without
    it a false condition aborts the program, and the call never returns. *)

Definition assert (NDEBUG : bool) (cond : bool) : option unit :=
  if NDEBUG then Some tt else if cond then Some tt else None.

Notation "e1 ;; e2" := (match e1 with Some _ => e2 | None => None end)
  (at level 61, right associativity).

(** ** [float Integrator6581::solve(float vi) const]

    The [const float] locals of the body, in the order of the source. *)

Section SolveLocals.

Variable self : Integrator6581.
Variable vi : float.

Definition Vgst : float := kVddt self - vx self.
Definition Vgdt : float := kVddt self - vi.

Definition Vgst_2 : float := Vgst * Vgst.
Definition Vgdt_2 : float := Vgdt * Vgdt.

Definition n_I_snake : float := n_snake self * (Vgst_2 - Vgdt_2).

Definition kVg : float :=
  output (vcr_kVg self) (((Vddt_Vw_2 self + Vgdt_2) / f_2) / f_65536).

Definition Vgs : float := if vx self <? kVg then kVg - vx self else f_0.
Definition Vgd : float := if vi <? kVg then kVg - vi else f_0.

Definition n_I_vcr : float :=
  output (vcr_n_Ids_term self) Vgs - output (vcr_n_Ids_term self) Vgd.

End SolveLocals.

(** The body.  [vc] and [vx] are assigned in place: the instance is
    rebound after each assignment. *)
Definition solve (NDEBUG : bool) (self : Integrator6581) (vi : float)
  : option (float * Integrator6581) :=
  assert NDEBUG (vx self <? kVddt self) ;;
  assert NDEBUG (vi <? kVddt self) ;;
  assert NDEBUG (Vgs self vi <? f_1shl16) ;;
  assert NDEBUG (Vgd self vi <? f_1shl16) ;;
  (* vc += (n_I_snake / 65536.f) + n_I_vcr; *)
  let self :=
    set_vc self (vc self + ((n_I_snake self vi / f_65536) + n_I_vcr self vi)) in
  let tmp := (vc self / f_2) + f_1shl15 in
  assert NDEBUG (tmp <? f_1shl16) ;;
  (* vx = opamp_rev->output(tmp); *)
  let self := set_vx self (output (opamp_rev self) tmp) in
  Some (vx self - vc self, self).

(** The values a call assigns, as functions of the state before it. *)
Definition vc_new (self : Integrator6581) (vi : float) : float :=
  vc self + ((n_I_snake self vi / f_65536) + n_I_vcr self vi).

Definition tmp (self : Integrator6581) (vi : float) : float :=
  (vc_new self vi / f_2) + f_1shl15.

Definition vx_new (self : Integrator6581) (vi : float) : float :=
  output (opamp_rev self) (tmp self vi).

(** The part of [solve] that every build executes: state update and result. *)
Definition solve_update (self : Integrator6581) (vi : float) : Integrator6581 :=
  set_vx (set_vc self (vc_new self vi)) (vx_new self vi).

(** The five conditions the body asserts, in order. *)
Definition solve_asserts (self : Integrator6581) (vi : float) : list bool :=
  [ vx self <? kVddt self;
    vi <? kVddt self;
    Vgs self vi <? f_1shl16;
    Vgd self vi <? f_1shl16;
    tmp self vi <? f_1shl16 ].

(** ** Call sequences

    The owning filter stage calls [setVw] and [solve] one after the other on
    one instance; an aborted call ends the run. *)

Inductive call : Type :=
| CallSetVw (Vw : float)
| CallSolve (vi : float).

Fixpoint run (NDEBUG : bool) (self : Integrator6581) (cs : list call)
  : option (list float * Integrator6581) :=
  match cs with
  | [] => Some ([], self)
  | CallSetVw Vw :: cs' => run NDEBUG (setVw self Vw) cs'
  | CallSolve vi :: cs' =>
      match solve NDEBUG self vi with
      | None => None
      | Some (vo, self') =>
          match run NDEBUG self' cs' with
          | None => None
          | Some (vos, self'') => Some (vo :: vos, self'')
          end
      end
  end.

(** [solve] called on each input in turn. *)
Definition solve_seq (NDEBUG : bool) (self : Integrator6581) (vis : list float)
  : option (list float * Integrator6581) :=
  run NDEBUG self (map CallSolve vis).


(** The datum carries the sign [s] (and is not a NaN). *)
Definition has_sign (s : bool) (x : spec_float) : Prop :=
  match x with
  | S754_zero s' | S754_infinity s' | S754_finite s' _ _ => s' = s
  | S754_nan => False
  end.

(** The datum is nonzero and carries the sign [s]. *)
Definition has_strict_sign (s : bool) (x : spec_float) : Prop :=
  match x with
  | S754_infinity s' | S754_finite s' _ _ => s' = s
  | S754_zero _ | S754_nan => False
  end.

(** ** Relations between instances *)

(** Same calibration: equal constants, tables with equal contents. *)
Definition same_calibration (a b : Integrator6581) : Prop :=
  lut_ext (vcr_kVg a) (vcr_kVg b) /\
  lut_ext (vcr_n_Ids_term a) (vcr_n_Ids_term b) /\
  lut_ext (opamp_rev a) (opamp_rev b) /\
  kVddt a = kVddt b /\ n_snake a = n_snake b.

Definition same_state (a b : Integrator6581) : Prop :=
  Vddt_Vw_2 a = Vddt_Vw_2 b /\ vx a = vx b /\ vc a = vc b.

(** What [solve] must leave alone: everything but [vx] and [vc]. *)
Definition solve_frame (self self' : Integrator6581) : Prop :=
  vcr_kVg self' = vcr_kVg self /\
  vcr_n_Ids_term self' = vcr_n_Ids_term self /\
  opamp_rev self' = opamp_rev self /\
  Vddt_Vw_2 self' = Vddt_Vw_2 self /\
  kVddt self' = kVddt self /\
  n_snake self' = n_snake self.

(** What [setVw] must leave alone: everything but [Vddt_Vw_2]. *)
Definition setVw_frame (self self' : Integrator6581) : Prop :=
  vcr_kVg self' = vcr_kVg self /\
  vcr_n_Ids_term self' = vcr_n_Ids_term self /\
  opamp_rev self' = opamp_rev self /\
  vx self' = vx self /\
  vc self' = vc self /\
  kVddt self' = kVddt self /\
  n_snake self' = n_snake self.

(** The operating region of the stored estimate. *)
Definition in_region (self : Integrator6581) : Prop :=
  (vx self <? kVddt self) = true.



(** The charge added to [vc] by one call. *)
Definition charge_increment (self : Integrator6581) (vi : float) : float :=
  (n_I_snake self vi / f_65536) + n_I_vcr self vi.

(** The two terminals exchanged: [vi] at the op-amp side, the former [vx]
    as input. *)
Definition exchanged_state (self : Integrator6581) (vi : float) : Integrator6581 :=
  set_vx self vi.
Definition exchanged_input (self : Integrator6581) (vi : float) : float :=
  vx self.


(** Every entry of the op-amp table that a call can look up lies below
    [kVddt]: where assertions are compiled in, the entries at arguments
    below [2^16]; with [NDEBUG], every entry. *)
Definition opamp_lookups_below_kVddt (NDEBUG : bool) (self : Integrator6581)
  : Prop :=
  forall x : float,
    (NDEBUG = false -> (x <? f_1shl16) = true) ->
    (output (opamp_rev self) x <? kVddt self) = true.

(** ** Concrete tables and values *)

Definition identity_LUT : LUT := {| output := fun x => x |}.
Definition constant_LUT (c : float) : LUT := {| output := fun _ => c |}.

Definition f_1 : float := Eval vm_compute in F32.of_int 1.
Definition f_0_5 : float := Eval vm_compute in (f_1 / f_2).             (* 0.5 *)
Definition f_0_2 : float := Eval vm_compute in (f_1 / F32.of_int 5).    (* 0.2 *)
Definition f_0_25 : float := Eval vm_compute in (f_1 / F32.of_int 4).   (* 0.25 *)
Definition f_0_8 : float := Eval vm_compute in (F32.of_int 4 / F32.of_int 5).

(** The instance of the regression test: unit constants, identity tables. *)
Definition golden : Integrator6581 :=
  Integrator6581_new identity_LUT identity_LUT identity_LUT f_1 f_1.

(** A fresh instance whose gate-voltage table holds the entry 70000. *)
Definition f_70000 : float := Eval vm_compute in F32.of_int 70000.
Definition high_gate : Integrator6581 :=
  Integrator6581_new (constant_LUT f_70000) identity_LUT identity_LUT f_1 f_1.

(** The identity table stored as another function with the same entries. *)
Definition double_opp_LUT : LUT := {| output := fun x => F32.opp (F32.opp x) |}.
Definition golden' : Integrator6581 :=
  Integrator6581_new double_opp_LUT double_opp_LUT double_opp_LUT f_1 f_1.

(** Two runs agree: both abort, or both return the same outputs and end
    in states that agree. *)
Definition runs_agree (r1 r2 : option (list float * Integrator6581)) : Prop :=
  match r1, r2 with
  | Some (vos1, a'), Some (vos2, b') =>
      vos1 = vos2 /\ same_calibration a' b' /\ same_state a' b'
  | None, None => True
  | _, _ => False
  end.

(** An instance that never settles: the snake current alone moves the
    charge, the op-amp table has two levels. *)
Definition f_m4 : float := Eval vm_compute in F32.of_int (-4).


(** Identity tables but for a constant gate voltage. *)
Definition fixed_gate : Integrator6581 :=
  Integrator6581_new (constant_LUT f_0_5) identity_LUT identity_LUT f_1 f_1.


(** A table that returns 0, and NaN at a NaN. *)
Definition nan_passing_LUT : LUT :=
  {| output := fun x => match x with S754_nan => S754_nan | _ => f_0 end |}.
Definition nan_passing : Integrator6581 :=
  Integrator6581_new (constant_LUT f_0) (constant_LUT f_0) nan_passing_LUT
                     f_1 f_1.

(** ** Special values and the table arguments *)

Definition f_nan : float := S754_nan.

Definition is_nan (x : float) : bool :=
  match x with S754_nan => true | _ => false end.

(** A zero or a finite nonzero value: neither an infinity nor a NaN. *)
Definition is_finite (x : float) : bool :=
  match x with S754_zero _ | S754_finite _ _ _ => true | _ => false end.

(** Not below zero: a zero, a positive value, +infinity or a NaN. *)
Definition not_negative (x : float) : bool := negb (x <? f_0).

(** The argument of the gate-voltage lookup in [solve]. *)
Definition kVg_index (self : Integrator6581) (vi : float) : float :=
  ((Vddt_Vw_2 self + Vgdt_2 self vi) / f_2) / f_65536.

(** One of the scalars a call computes the charge from is a NaN. *)
Definition nan_source (self : Integrator6581) (vi : float) : bool :=
  is_nan vi || is_nan (vx self) || is_nan (vc self)
  || is_nan (kVddt self) || is_nan (n_snake self).

(** A fresh instance whose gate-voltage table returns NaN. *)
Definition nan_gate : Integrator6581 :=
  Integrator6581_new (constant_LUT f_nan) identity_LUT identity_LUT f_1 f_1.

(** * Facts of binary32 arithmetic *)

Local Close Scope f32_scope.

Section RoundingSign.

Variables prec emax : Z.

Lemma iter_pos_invariant {A : Type} (P : A -> Prop) (f : A -> A) :
  (forall x, P x -> P (f x)) ->
  forall (n : positive) (x : A), P x -> P (iter_pos f n x).
Proof.
  intros Hf. induction n as [n IH|n IH|]; intros x Hx; simpl; auto.
Qed.

Lemma shr_1_nonneg (r : shr_record) :
  0 <= shr_m r -> 0 <= shr_m (shr_1 r).
Proof.
  destruct r as [m r s]. simpl.
  destruct m as [|[p|p|]|p]; simpl; lia.
Qed.

Lemma shr_nonneg (r : shr_record) (e n : Z) :
  0 <= shr_m r -> 0 <= shr_m (fst (shr r e n)).
Proof.
  intros H. unfold shr. destruct n as [|p|p]; simpl; auto.
  apply iter_pos_invariant; auto using shr_1_nonneg.
Qed.

Lemma shr_record_of_loc_m (m : Z) (l : location) :
  shr_m (shr_record_of_loc m l) = m.
Proof. destruct l as [|[]]; reflexivity. Qed.

Lemma shr_fexp_nonneg (m e : Z) (l : location) :
  0 <= m -> 0 <= shr_m (fst (shr_fexp prec emax m e l)).
Proof.
  intros H. unfold shr_fexp. apply shr_nonneg.
  rewrite shr_record_of_loc_m. exact H.
Qed.

Lemma round_nearest_even_nonneg (m : Z) (l : location) :
  0 <= m -> 0 <= round_nearest_even m l.
Proof.
  intros H. unfold round_nearest_even.
  destruct l as [|[]]; try destruct (Z.even m); lia.
Qed.

Lemma binary_round_aux_sign (s : bool) (m e : Z) (l : location) :
  0 <= m -> has_sign s (binary_round_aux prec emax s m e l).
Proof.
  intros H. unfold binary_round_aux.
  pose proof (shr_fexp_nonneg m e l H) as H1.
  destruct (shr_fexp prec emax m e l) as [r1 e1]. simpl in H1.
  pose proof (shr_fexp_nonneg
                (round_nearest_even (shr_m r1) (loc_of_shr_record r1))
                e1 loc_Exact
                (round_nearest_even_nonneg _ _ H1)) as H2.
  destruct (shr_fexp prec emax _ e1 loc_Exact) as [r2 e2]. simpl in H2.
  destruct (shr_m r2) as [|p|p]; simpl; try reflexivity; [|lia].
  destruct (e2 <=? emax - prec)%Z; reflexivity.
Qed.

Lemma binary_round_sign (s : bool) (m : positive) (e : Z) :
  has_sign s (binary_round prec emax s m e).
Proof.
  unfold binary_round.
  destruct (shl_align m e _) as [mz ez].
  apply binary_round_aux_sign. lia.
Qed.

Lemma binary_normalize_nonneg (m e : Z) :
  0 <= m -> has_sign false (binary_normalize prec emax m e false).
Proof.
  intros H. destruct m as [|p|p]; simpl; [reflexivity| |lia].
  apply binary_round_sign.
Qed.

Lemma binary_round_aux_opp (s : bool) (m e : Z) (l : location) :
  binary_round_aux prec emax (negb s) m e l =
  SFopp (binary_round_aux prec emax s m e l).
Proof.
  unfold binary_round_aux.
  destruct (shr_fexp prec emax m e l) as [r1 e1].
  destruct (shr_fexp prec emax _ e1 loc_Exact) as [r2 e2].
  destruct (shr_m r2) as [|p|p]; simpl; try reflexivity.
  destruct (e2 <=? emax - prec)%Z; reflexivity.
Qed.

Lemma binary_round_opp (s : bool) (m : positive) (e : Z) :
  binary_round prec emax (negb s) m e =
  SFopp (binary_round prec emax s m e).
Proof.
  unfold binary_round.
  destruct (shl_align m e _) as [mz ez].
  apply binary_round_aux_opp.
Qed.

Lemma binary_normalize_opp (m e : Z) :
  m <> 0 ->
  binary_normalize prec emax (- m) e false =
  SFopp (binary_normalize prec emax m e false).
Proof.
  intros H. destruct m as [|p|p]; simpl; [lia| |].
  - apply (binary_round_opp false).
  - rewrite <- (binary_round_opp true). reflexivity.
Qed.

End RoundingSign.

Section Alignment.

Variables prec emax : Z.
Hypothesis prec_pos : 0 < prec.

Lemma digits2_pos_bounds (m : positive) :
  2 ^ (Zpos (digits2_pos m) - 1) <= Zpos m < 2 ^ Zpos (digits2_pos m).
Proof.
  induction m as [m IH|m IH|]; simpl digits2_pos.
  - rewrite Pos2Z.inj_succ.
    replace (Z.succ (Zpos (digits2_pos m)) - 1)
      with (Z.succ (Zpos (digits2_pos m) - 1)) by lia.
    rewrite !Z.pow_succ_r by lia. lia.
  - rewrite Pos2Z.inj_succ.
    replace (Z.succ (Zpos (digits2_pos m)) - 1)
      with (Z.succ (Zpos (digits2_pos m) - 1)) by lia.
    rewrite !Z.pow_succ_r by lia. lia.
  - simpl. lia.
Qed.

Lemma iter_xO_value (m d : positive) :
  Zpos (Pos.iter xO m d) = Zpos m * 2 ^ Zpos d.
Proof.
  induction d as [|d IH] using Pos.peano_ind.
  - simpl. lia.
  - rewrite Pos.iter_succ, Pos2Z.inj_succ, Z.pow_succ_r by lia.
    rewrite Pos2Z.inj_xO, IH. lia.
Qed.

Lemma shl_align_value (m : positive) (e e' : Z) :
  e' <= e -> Zpos (fst (shl_align m e e')) = Zpos m * 2 ^ (e - e').
Proof.
  intros H. unfold shl_align.
  destruct (e' - e) as [|d|d] eqn:Hd.
  - replace (e - e') with 0 by lia. simpl. lia.
  - lia.
  - simpl. rewrite iter_xO_value.
    replace (e - e') with (Zpos d) by lia. reflexivity.
Qed.

Lemma bounded_facts (m : positive) (e : Z) :
  bounded prec emax m e = true ->
  emin prec emax <= e /\
  Zpos m < 2 ^ prec /\
  (emin prec emax < e -> 2 ^ (prec - 1) <= Zpos m).
Proof.
  unfold bounded, canonical_mantissa, fexp.
  intros H. apply andb_prop in H. destruct H as [H _].
  apply Z.eqb_eq in H.
  pose proof (digits2_pos_bounds m) as [Hlo Hhi].
  set (d := Zpos (digits2_pos m)) in *.
  assert (Hd : 0 < d) by (unfold d; lia).
  repeat split.
  - lia.
  - apply Z.lt_le_trans with (1 := Hhi).
    apply Z.pow_le_mono_r; lia.
  - intros He. replace (prec - 1) with (d - 1) by lia. exact Hlo.
Qed.

(** On canonical data the order of [SFcompare] is the order of the
    values, here brought to the common exponent of [SFsub]. *)
Lemma compare_Lt_aligned (sx sy : bool) (mx my : positive) (ex ey : Z) :
  bounded prec emax mx ex = true ->
  bounded prec emax my ey = true ->
  SFcompare (S754_finite sx mx ex) (S754_finite sy my ey) = Some Lt ->
  cond_Zopp sx (Zpos mx * 2 ^ (ex - Z.min ex ey))
  < cond_Zopp sy (Zpos my * 2 ^ (ey - Z.min ex ey)).
Proof.
  intros Bx By Hc.
  destruct (bounded_facts _ _ Bx) as (Hex & Hmx & Hnx).
  destruct (bounded_facts _ _ By) as (Hey & Hmy & Hny).
  assert (Hp : 2 ^ prec = 2 * 2 ^ (prec - 1)).
  { rewrite <- Z.pow_succ_r by lia. f_equal. lia. }
  assert (Hshift : forall (a b : positive) (ea eb : Z),
             ea < eb -> Zpos a < 2 ^ prec -> 2 ^ (prec - 1) <= Zpos b ->
             Zpos a * 2 ^ (ea - Z.min ea eb)
             < Zpos b * 2 ^ (eb - Z.min ea eb)).
  { intros a b ea eb Hlt Ha Hb.
    replace (Z.min ea eb) with ea by lia.
    replace (ea - ea) with 0 by lia. rewrite Z.pow_0_r, Z.mul_1_r.
    assert (2 ^ 1 <= 2 ^ (eb - ea)) by (apply Z.pow_le_mono_r; lia).
    change (2 ^ 1) with 2 in *. nia. }
  simpl in Hc. destruct sx, sy; unfold cond_Zopp.
  - (* both negative *)
    destruct (Z.compare_spec ex ey) as [He|He|He].
    + subst ey. rewrite Z.min_id, Z.sub_diag, Z.pow_0_r.
      destruct (Pos.compare_cont Eq mx my) eqn:Hm; try discriminate.
      change (Pos.compare_cont Eq mx my) with (Pos.compare mx my) in Hm.
      apply Pos.compare_gt_iff, Pos2Z.pos_lt_pos in Hm. lia.
    + discriminate.
    + specialize (Hshift my mx ey ex He Hmy (Hnx ltac:(lia))).
      rewrite (Z.min_comm ex ey). lia.
  - lia.
  - discriminate.
  - (* both positive *)
    destruct (Z.compare_spec ex ey) as [He|He|He].
    + subst ey. rewrite Z.min_id, Z.sub_diag, Z.pow_0_r.
      change (Pos.compare_cont Eq mx my) with (Pos.compare mx my) in Hc.
      assert (Hm : (mx ?= my)%positive = Lt) by congruence.
      apply Pos.compare_lt_iff, Pos2Z.pos_lt_pos in Hm. lia.
    + apply (Hshift mx my ex ey He Hmx (Hny ltac:(lia))).
    + discriminate.
Qed.

Lemma sub_sign_of_ltb (x y : spec_float) :
  valid_binary prec emax x = true ->
  valid_binary prec emax y = true ->
  SFltb x y = true ->
  has_sign false (SFsub prec emax y x).
Proof.
  intros Vx Vy Hlt. unfold SFltb in Hlt.
  destruct (SFcompare x y) as [[| |]|] eqn:Hc; try discriminate. clear Hlt.
  destruct x as [sx|sx| |sx mx ex], y as [sy|sy| |sy my ey].
  16: { simpl in Vx, Vy.
        pose proof (compare_Lt_aligned _ _ _ _ _ _ Vx Vy Hc) as Hal.
        unfold SFsub. apply binary_normalize_nonneg.
        rewrite !shl_align_value by lia.
        rewrite (Z.min_comm ey ex). lia. }
  all: simpl in Hc; try discriminate;
    try (destruct sx; try discriminate);
    try (destruct sy; try discriminate);
    reflexivity.
Qed.

End Alignment.

Section Negation.

Variables prec emax : Z.

Lemma sim_refl (x : float) : F32.sim x x.
Proof. left. reflexivity. Qed.

Lemma sim_sym (x y : float) : F32.sim x y -> F32.sim y x.
Proof.
  intros [->|(s & s' & -> & ->)]; [left; reflexivity|].
  right. eauto.
Qed.

Lemma sim_trans (x y z : float) : F32.sim x y -> F32.sim y z -> F32.sim x z.
Proof.
  intros [->|(s & s' & -> & ->)] H; [exact H|].
  destruct H as [<-|(t & t' & Ht & ->)]; right; eauto.
Qed.

Lemma sim_zero (s s' : bool) : F32.sim (S754_zero s) (S754_zero s').
Proof. right. eauto. Qed.

Lemma sim_opp (x y : float) : F32.sim x y -> F32.sim (SFopp x) (SFopp y).
Proof.
  intros [->|(s & s' & -> & ->)]; [apply sim_refl | apply sim_zero].
Qed.






Lemma mul_opp_r (n x : float) :
  SFmul prec emax n (SFopp x) = SFopp (SFmul prec emax n x).
Proof.
  destruct n as [sn|sn| |sn mn en], x as [sx|sx| |sx mx ex].
  16: { unfold SFmul, SFopp at 1. rewrite <- negb_xorb_r.
        apply binary_round_aux_opp. }
  all: simpl; rewrite <- ?negb_xorb_r; reflexivity.
Qed.


Lemma binary_normalize_opp_sim (m e : Z) :
  F32.sim (binary_normalize prec emax (- m) e false)
          (SFopp (binary_normalize prec emax m e false)).
Proof.
  destruct (Z.eq_dec m 0) as [->|Hm].
  - simpl. apply sim_zero.
  - rewrite binary_normalize_opp by exact Hm. apply sim_refl.
Qed.

(** [y - x] is the negation of [x - y], up to the sign of a zero. *)
Lemma sub_antisym (x y : float) :
  F32.sim (SFsub prec emax y x) (SFopp (SFsub prec emax x y)).
Proof.
  destruct x as [sx|sx| |sx mx ex], y as [sy|sy| |sy my ey].
  16: { unfold SFsub.
        eapply sim_trans; [|apply binary_normalize_opp_sim].
        rewrite (Z.min_comm ey ex).
        match goal with
        | |- F32.sim (binary_normalize _ _ ?a _ _)
                     (binary_normalize _ _ ?b _ _) =>
            replace a with b by lia
        end.
        apply sim_refl. }
  all: simpl; try apply sim_refl.
  all: try (destruct sx, sy; simpl; solve [apply sim_refl | apply sim_zero]).
Qed.


End Negation.


Section StrictSign.

Variables prec emax : Z.
Hypothesis prec_pos : 0 < prec.

Lemma shr_1_div2 (r : shr_record) :
  0 <= shr_m r -> shr_m (shr_1 r) = shr_m r / 2.
Proof.
  destruct r as [m r s]. cbn [shr_m].
  destruct m as [|[p|p|]|p]; cbn [shr_1 shr_m]; intros H; try lia.
  - reflexivity.
  - apply Z.div_unique with (r := 1); lia.
  - apply Z.div_unique with (r := 0); lia.
  - reflexivity.
Qed.

Lemma iter_shr_1_div (p : positive) :
  forall r : shr_record,
    0 <= shr_m r -> shr_m (iter_pos shr_1 p r) = shr_m r / 2 ^ Zpos p.
Proof.
  assert (Hnn : forall (q : positive) (r : shr_record),
             0 <= shr_m r -> 0 <= shr_m (iter_pos shr_1 q r)).
  { induction q as [q IH|q IH|]; intros r Hr; simpl; auto.
    - apply IH, IH. destruct r as [m b s]; destruct m as [|[a|a|]|a]; simpl in *; lia.
    - destruct r as [m b s]; destruct m as [|[a|a|]|a]; simpl in *; lia. }
  induction p as [p IH|p IH|]; intros r Hr; simpl iter_pos.
  - rewrite IH, IH, shr_1_div2 by
      (try apply Hnn; try (rewrite shr_1_div2 by lia; apply Z.div_pos; lia); lia).
    rewrite !Z.div_div by lia.
    f_equal.
    replace (Z.pos p~1) with (Z.pos p + Z.pos p + 1) by lia.
    rewrite !Z.pow_add_r by lia. change (2 ^ 1) with 2. ring.
  - rewrite IH, IH by (try apply Hnn; lia).
    rewrite !Z.div_div by lia.
    f_equal.
    replace (Z.pos p~0) with (Z.pos p + Z.pos p) by lia.
    rewrite !Z.pow_add_r by lia. ring.
  - rewrite shr_1_div2 by lia. reflexivity.
Qed.

Lemma shr_fexp_pos (m e : Z) (l : location) :
  0 < m -> emin prec emax <= e ->
  0 < shr_m (fst (shr_fexp prec emax m e l)) /\
  emin prec emax <= snd (shr_fexp prec emax m e l).
Proof.
  intros Hm He. unfold shr_fexp, shr, fexp.
  destruct m as [|p|p]; try lia. cbn [Zdigits2].
  pose proof (digits2_pos_bounds p) as [Hlo _].
  set (d := Zpos (digits2_pos p)) in *.
  assert (Hd : 0 < d) by (unfold d; lia).
  destruct (Z.max (d + e - prec) (emin prec emax) - e) as [|n|n] eqn:Hn;
    cbn [fst snd]; rewrite ?shr_record_of_loc_m; try (split; lia).
  rewrite iter_shr_1_div by (rewrite shr_record_of_loc_m; lia).
  rewrite shr_record_of_loc_m. split; [|lia].
  apply Z.div_str_pos. split; [apply Z.pow_pos_nonneg; lia|].
  apply Z.le_trans with (2 := Hlo).
  apply Z.pow_le_mono_r; lia.
Qed.

Lemma round_nearest_even_pos (m : Z) (l : location) :
  0 < m -> 0 < round_nearest_even m l.
Proof.
  intros H. unfold round_nearest_even.
  destruct l as [|[]]; try destruct (Z.even m); lia.
Qed.

Lemma binary_round_aux_strict_sign (s : bool) (m e : Z) (l : location) :
  0 < m -> emin prec emax <= e ->
  has_strict_sign s (binary_round_aux prec emax s m e l).
Proof.
  intros Hm He. unfold binary_round_aux.
  destruct (shr_fexp_pos m e l Hm He) as [H1 E1].
  destruct (shr_fexp prec emax m e l) as [r1 e1]. cbn [fst snd] in H1, E1.
  destruct (shr_fexp_pos
              (round_nearest_even (shr_m r1) (loc_of_shr_record r1))
              e1 loc_Exact (round_nearest_even_pos _ _ H1) E1) as [H2 _].
  destruct (shr_fexp prec emax _ e1 loc_Exact) as [r2 e2]. cbn [fst] in H2.
  destruct (shr_m r2) as [|p|p]; try lia.
  destruct (e2 <=? emax - prec); reflexivity.
Qed.

Lemma binary_round_strict_sign (s : bool) (m : positive) (e : Z) :
  emin prec emax <= e ->
  has_strict_sign s (binary_round prec emax s m e).
Proof.
  intros He. unfold binary_round.
  destruct (shl_align m e (fexp prec emax (Zpos (digits2_pos m) + e)))
    as [mz ez] eqn:Hal.
  apply binary_round_aux_strict_sign; [lia|].
  unfold shl_align in Hal.
  destruct (fexp prec emax (Zpos (digits2_pos m) + e) - e) as [|d|d] eqn:Hd;
    inversion Hal; subst; try lia.
  unfold fexp. lia.
Qed.

Lemma sub_strict_sign_of_ltb (x y : spec_float) :
  valid_binary prec emax x = true ->
  valid_binary prec emax y = true ->
  SFltb x y = true ->
  has_strict_sign false (SFsub prec emax y x).
Proof.
  intros Vx Vy Hlt. unfold SFltb in Hlt.
  destruct (SFcompare x y) as [[| |]|] eqn:Hc; try discriminate. clear Hlt.
  destruct x as [sx|sx| |sx mx ex], y as [sy|sy| |sy my ey].
  16: { simpl in Vx, Vy.
        pose proof (compare_Lt_aligned prec emax prec_pos _ _ _ _ _ _ Vx Vy Hc)
          as Hal.
        destruct (bounded_facts prec emax _ _ Vx) as (Hex & _).
        destruct (bounded_facts prec emax _ _ Vy) as (Hey & _).
        unfold SFsub, binary_normalize.
        rewrite !shl_align_value by lia.
        rewrite (Z.min_comm ey ex).
        match goal with
        | |- has_strict_sign _ (match ?D with _ => _ end) =>
            destruct D as [|d|d] eqn:HD; try lia
        end.
        apply binary_round_strict_sign. lia. }
  all: simpl in Hc; try discriminate;
    try (destruct sx; try discriminate);
    try (destruct sy; try discriminate);
    reflexivity.
Qed.

Lemma compare_antisym (x y : spec_float) :
  SFcompare y x =
  match SFcompare x y with Some c => Some (CompOpp c) | None => None end.
Proof.
  destruct x as [sx|sx| |sx mx ex], y as [sy|sy| |sy my ey].
  16: { simpl.
        change (Pos.compare_cont Eq my mx) with (Pos.compare my mx).
        change (Pos.compare_cont Eq mx my) with (Pos.compare mx my).
        rewrite (Pos.compare_antisym mx my), (Z.compare_antisym ex ey).
        destruct sx, sy, (ex ?= ey), (mx ?= my)%positive; reflexivity. }
  all: simpl; try reflexivity;
    try (destruct sx; reflexivity); try (destruct sy; reflexivity);
    destruct sx, sy; reflexivity.
Qed.

Lemma sub_not_positive_of_compare_Eq (x y : spec_float) :
  SFcompare x y = Some Eq ->
  SFltb (S754_zero false) (SFsub prec emax y x) = false.
Proof.
  intros Hc.
  destruct x as [sx|sx| |sx mx ex], y as [sy|sy| |sy my ey].
  16: { simpl in Hc.
        change (Pos.compare_cont Eq mx my) with (Pos.compare mx my) in Hc.
        assert (sx = sy /\ ex = ey /\ mx = my) as (-> & -> & ->).
        { destruct sx, sy; try discriminate;
            destruct (Z.compare_spec ex ey); try discriminate;
            destruct (Pos.compare_spec mx my); try discriminate; auto. }
        unfold SFsub. rewrite Z.sub_diag. reflexivity. }
  all: simpl in Hc; try discriminate;
    try (destruct sx; try discriminate);
    try (destruct sy; try discriminate);
    reflexivity.
Qed.

Lemma ltb_zero_of_sim_opp (a b : spec_float) :
  F32.sim a (SFopp b) -> has_sign false b ->
  SFltb (S754_zero false) a = false.
Proof.
  intros [->|(s & s' & -> & _)] Hb; [|reflexivity].
  destruct b as [s|s| |s m e]; simpl in Hb; try contradiction;
    subst; reflexivity.
Qed.

(** [0 < y - x] exactly when [x < y]. *)
Lemma ltb_zero_sub (x y : spec_float) :
  valid_binary prec emax x = true ->
  valid_binary prec emax y = true ->
  SFltb (S754_zero false) (SFsub prec emax y x) = SFltb x y.
Proof.
  intros Vx Vy.
  destruct (SFltb x y) eqn:Hlt.
  - pose proof (sub_strict_sign_of_ltb x y Vx Vy Hlt) as H.
    destruct (SFsub prec emax y x) as [s|s| |s m e]; simpl in H;
      try contradiction; subst; reflexivity.
  - unfold SFltb in Hlt.
    destruct (SFcompare x y) as [[| |]|] eqn:Hc; try discriminate.
    + apply sub_not_positive_of_compare_Eq. exact Hc.
    + assert (Hyx : SFltb y x = true).
      { unfold SFltb. rewrite compare_antisym, Hc. reflexivity. }
      apply (ltb_zero_of_sim_opp _ (SFsub prec emax x y)).
      * apply sub_antisym.
      * apply (sub_sign_of_ltb prec emax prec_pos y x Vy Vx Hyx).
    + destruct x as [sx|sx| |sx mx ex], y as [sy|sy| |sy my ey];
        simpl in Hc; try discriminate; reflexivity.
Qed.

End StrictSign.

Section RoundingBound.

Variables prec emax : Z.
Hypothesis prec_pos : 0 < prec.

Lemma shr_1_exact (r : shr_record) :
  shr_r r = false -> shr_s r = false -> 0 <= shr_m r -> (2 | shr_m r) ->
  shr_r (shr_1 r) = false /\ shr_s (shr_1 r) = false.
Proof.
  destruct r as [m b s]. cbn [shr_r shr_s shr_m]. intros -> -> Hm [q Hq].
  destruct m as [|[p|p|]|p]; cbn [shr_1 shr_r shr_s orb];
    try (exfalso; lia); auto.
Qed.

Lemma iter_shr_1_exact (p : positive) :
  forall r : shr_record,
    shr_r r = false -> shr_s r = false -> 0 <= shr_m r ->
    (2 ^ Zpos p | shr_m r) ->
    shr_r (iter_pos shr_1 p r) = false /\ shr_s (iter_pos shr_1 p r) = false.
Proof.
  assert (Hsplit : forall (a b m : Z), 0 < a -> 0 < b -> 0 <= m ->
             (a * b | m) -> (a | m) /\ (b | m / a)).
  { intros a b m Ha Hb Hm [q Hq]. split.
    - exists (q * b). lia.
    - exists q. subst m. replace (q * (a * b)) with (q * b * a) by ring.
      rewrite Z.div_mul by lia. reflexivity. }
  induction p as [p IH|p IH|]; intros r Hr Hs Hm Hd; cbn [iter_pos].
  - replace (2 ^ Z.pos p~1) with (2 * (2 ^ Z.pos p * 2 ^ Z.pos p)) in Hd.
    2: { replace (Z.pos p~1) with (1 + Z.pos p + Z.pos p) by lia.
         rewrite !Z.pow_add_r by lia. change (2 ^ 1) with 2. ring. }
    assert (Hp : 0 < 2 ^ Z.pos p) by (apply Z.pow_pos_nonneg; lia).
    assert (Hpp : 0 < 2 ^ Z.pos p * 2 ^ Z.pos p) by nia.
    destruct (Hsplit 2 _ _ ltac:(lia) Hpp Hm Hd) as [H2 Hd'].
    destruct (shr_1_exact r Hr Hs Hm H2) as [Hr1 Hs1].
    assert (Hm1 : 0 <= shr_m (shr_1 r)) by (apply shr_1_nonneg; exact Hm).
    rewrite <- shr_1_div2 in Hd' by exact Hm.
    destruct (Hsplit _ _ _ Hp Hp Hm1 Hd') as [Ha Hb].
    destruct (IH (shr_1 r) Hr1 Hs1 Hm1 Ha) as [Hr2 Hs2].
    apply IH; auto.
    + apply iter_pos_invariant; auto using shr_1_nonneg.
    + rewrite iter_shr_1_div by exact Hm1. exact Hb.
  - replace (2 ^ Z.pos p~0) with (2 ^ Z.pos p * 2 ^ Z.pos p) in Hd.
    2: { replace (Z.pos p~0) with (Z.pos p + Z.pos p) by lia.
         rewrite !Z.pow_add_r by lia. ring. }
    assert (Hp : 0 < 2 ^ Z.pos p) by (apply Z.pow_pos_nonneg; lia).
    destruct (Hsplit _ _ _ Hp Hp Hm Hd) as [Ha Hb].
    destruct (IH r Hr Hs Hm Ha) as [Hr2 Hs2].
    apply IH; auto.
    + apply iter_pos_invariant; auto using shr_1_nonneg.
    + rewrite iter_shr_1_div by exact Hm. exact Hb.
  - apply shr_1_exact; auto.
Qed.

Lemma shr_fexp_exact_spec (m e : Z) (r : shr_record) (e' : Z) :
  0 < m ->
  shr_fexp prec emax m e loc_Exact = (r, e') ->
  let n := Z.max (fexp prec emax (Zdigits2 m + e) - e) 0 in
  e' = e + n /\ shr_m r = m / 2 ^ n /\
  ((2 ^ n | m) -> loc_of_shr_record r = loc_Exact).
Proof.
  intros Hm H n. unfold shr_fexp, shr in H. subst n.
  destruct (fexp prec emax (Zdigits2 m + e) - e) as [|q|q];
    inversion H; subst; clear H; cbn [Z.max Z.compare shr_record_of_loc shr_m].
  - rewrite Z.add_0_r, Z.pow_0_r, Z.div_1_r. auto.
  - replace (Z.max (Z.pos q) 0) with (Z.pos q) by lia.
    rewrite iter_shr_1_div by (cbn; lia). cbn [shr_m].
    repeat split; auto. intros Hd.
    destruct (iter_shr_1_exact q (Build_shr_record m false false)
                eq_refl eq_refl ltac:(cbn; lia) Hd) as [Hr Hs].
    destruct (iter_pos shr_1 q _) as [m' b s]. cbn in Hr, Hs. subst.
    reflexivity.
  - replace (Z.max (Z.neg q) 0) with 0 by lia.
    rewrite Z.add_0_r, Z.pow_0_r, Z.div_1_r. auto.
Qed.

Lemma digits2_pos_iter_xO (m q : positive) :
  digits2_pos (Pos.iter xO m q) = (digits2_pos m + q)%positive.
Proof.
  induction q as [|q IH] using Pos.peano_ind.
  - simpl. lia.
  - rewrite Pos.iter_succ. simpl. rewrite IH. lia.
Qed.

Lemma Zdigits2_le (m k : Z) :
  0 < m -> 0 <= k -> m < 2 ^ k -> Zdigits2 m <= k.
Proof.
  intros Hm Hk Hlt. destruct m as [|p|p]; try lia. cbn [Zdigits2].
  pose proof (digits2_pos_bounds p) as [Hlo _].
  assert (H : 2 ^ (Zpos (digits2_pos p) - 1) < 2 ^ k) by lia.
  apply Z.pow_lt_mono_r_iff in H; lia.
Qed.

Lemma Zdigits2_pow2 (k : Z) :
  0 <= k -> Zdigits2 (2 ^ k) = k + 1.
Proof.
  intros Hk.
  assert (Hp : 0 < 2 ^ k) by (apply Z.pow_pos_nonneg; lia).
  destruct (2 ^ k) as [|p|p] eqn:E; try lia. cbn [Zdigits2].
  pose proof (digits2_pos_bounds p) as [Hlo Hhi]. rewrite <- E in Hlo, Hhi.
  apply Z.pow_le_mono_r_iff in Hlo; try lia.
  apply Z.pow_lt_mono_r_iff in Hhi; lia.
Qed.

Lemma pow2_split (a b : Z) : 0 <= a -> 0 <= b -> 2 ^ (a + b) = 2 ^ a * 2 ^ b.
Proof. intros. apply Z.pow_add_r; lia. Qed.

(** Rounding a positive value that does not exceed the largest datum with
    exponent [eB] gives a finite datum with exponent at most [eB]. *)
Lemma binary_round_le_bound (D : positive) (ez eB : Z) :
  emin prec emax <= ez -> emin prec emax <= eB -> eB <= emax - prec ->
  Zpos D * 2 ^ (ez - emin prec emax)
  <= (2 ^ prec - 1) * 2 ^ (eB - emin prec emax) ->
  exists (m : positive) (e : Z),
    binary_round prec emax false D ez = S754_finite false m e /\ e <= eB.
Proof.
  intros Hez HeB HeBmax Hle.
  set (em := emin prec emax) in *.
  pose proof (digits2_pos_bounds D) as [Dlo Dhi].
  set (d := Zpos (digits2_pos D)) in *.
  assert (Hd : 0 < d) by (unfold d; lia).
  assert (Hpp : 0 < 2 ^ prec) by (apply Z.pow_pos_nonneg; lia).
  set (f0 := fexp prec emax (d + ez)).
  assert (Hf0 : f0 = Z.max (d + ez - prec) em) by reflexivity.
  assert (Hf0B : f0 <= eB).
  { destruct (Z.le_gt_cases f0 eB) as [|Hgt]; [assumption|exfalso].
    assert (Hde : eB + prec <= d - 1 + ez) by lia.
    assert (H1 : 2 ^ (prec + (eB - em)) <= 2 ^ ((d - 1) + (ez - em)))
      by (apply Z.pow_le_mono_r; lia).
    rewrite !pow2_split in H1 by lia.
    assert (0 < 2 ^ (eB - em)) by (apply Z.pow_pos_nonneg; lia).
    assert (0 < 2 ^ (ez - em)) by (apply Z.pow_pos_nonneg; lia).
    nia. }
  (* the aligned mantissa *)
  unfold binary_round. fold d. fold f0.
  assert (Hal : exists mz e0,
             shl_align D ez f0 = (mz, e0) /\
             em <= e0 /\ e0 <= f0 /\
             Zpos mz * 2 ^ (e0 - em) = Zpos D * 2 ^ (ez - em) /\
             Zpos (digits2_pos mz) + e0 = d + ez).
  { unfold shl_align. destruct (f0 - ez) as [|q|q] eqn:Hq.
    - exists D, ez. repeat split; auto; lia.
    - exists D, ez. repeat split; auto; lia.
    - exists (Pos.iter xO D q), f0. repeat split; try lia.
      + rewrite iter_xO_value.
        replace (ez - em) with (Zpos q + (f0 - em)) by lia.
        rewrite pow2_split by lia. ring.
      + rewrite digits2_pos_iter_xO. fold d. lia. }
  destruct Hal as (mz & e0 & -> & He0 & He0f & Hval & Hdig).
  unfold binary_round_aux.
  destruct (shr_fexp prec emax (Zpos mz) e0 loc_Exact) as [r1 e1] eqn:H1.
  apply shr_fexp_exact_spec in H1; [|lia].
  cbn [Zdigits2] in H1. rewrite Hdig in H1. fold f0 in H1.
  replace (Z.max (f0 - e0) 0) with (f0 - e0) in H1 by lia.
  destruct H1 as (He1 & Hm1 & Hex1).
  assert (He1' : e1 = f0) by lia. clear He1. subst e1.
  set (n1 := f0 - e0) in *.
  assert (Hn1 : 0 <= n1) by (unfold n1; lia).
  assert (Hpn : 0 < 2 ^ n1) by (apply Z.pow_pos_nonneg; lia).
  (* the truncated mantissa *)
  assert (Hm1lo : shr_m r1 * 2 ^ n1 <= Zpos mz).
  { rewrite Hm1. rewrite Z.mul_comm. apply Z.mul_div_le. lia. }
  assert (Hm1pos : 0 < shr_m r1).
  { rewrite Hm1. apply Z.div_str_pos. split; [lia|].
    pose proof (digits2_pos_bounds mz) as [Mlo _].
    apply Z.le_trans with (2 := Mlo).
    apply Z.pow_le_mono_r; [lia|].
    unfold n1. rewrite Hf0. lia. }
  assert (Hm1hi : shr_m r1 < 2 ^ prec).
  { rewrite Hm1. apply Z.div_lt_upper_bound; [lia|].
    pose proof (digits2_pos_bounds mz) as [_ Mhi].
    apply Z.lt_le_trans with (1 := Mhi).
    rewrite <- pow2_split by lia.
    apply Z.pow_le_mono_r; [lia|].
    unfold n1. rewrite Hf0. lia. }
  set (m2 := round_nearest_even (shr_m r1) (loc_of_shr_record r1)).
  assert (Hm2lo : shr_m r1 <= m2).
  { unfold m2, round_nearest_even.
    destruct (loc_of_shr_record r1) as [|[]]; try destruct (Z.even _); lia. }
  assert (Hm2hi : m2 <= shr_m r1 + 1).
  { unfold m2, round_nearest_even.
    destruct (loc_of_shr_record r1) as [|[]]; try destruct (Z.even _); lia. }
  assert (Hm2B : f0 = eB -> m2 < 2 ^ prec).
  { intros HfB.
    assert (Hv : shr_m r1 * 2 ^ n1 * 2 ^ (e0 - em)
                 <= (2 ^ prec - 1) * 2 ^ (eB - em)).
    { rewrite <- Hval in Hle.
      assert (0 < 2 ^ (e0 - em)) by (apply Z.pow_pos_nonneg; lia). nia. }
    replace (eB - em) with (n1 + (e0 - em)) in Hv by (unfold n1; lia).
    rewrite pow2_split in Hv by lia.
    assert (Hq : 0 < 2 ^ (e0 - em)) by (apply Z.pow_pos_nonneg; lia).
    assert (Hm1B : shr_m r1 <= 2 ^ prec - 1) by nia.
    destruct (Z.eq_dec (shr_m r1) (2 ^ prec - 1)) as [Heq|Hne]; [|lia].
    (* the bound is attained: the value is exact, hence not rounded up *)
    assert (Hexact : Zpos mz = shr_m r1 * 2 ^ n1).
    { rewrite <- Hval in Hle.
      replace (eB - em) with (n1 + (e0 - em)) in Hle by (unfold n1; lia).
      rewrite pow2_split in Hle by lia. rewrite <- Heq in Hle. nia. }
    assert (Hloc : loc_of_shr_record r1 = loc_Exact).
    { apply Hex1. exists (shr_m r1). exact Hexact. }
    unfold m2. rewrite Hloc. cbn [round_nearest_even]. lia. }
  (* the second, exact, shift *)
  destruct (shr_fexp prec emax m2 f0 loc_Exact) as [r2 e2] eqn:H2.
  apply shr_fexp_exact_spec in H2; [|lia].
  destruct H2 as (He2 & Hm2 & _).
  assert (Hf0em : em <= f0) by lia.
  destruct (Z.eq_dec m2 (2 ^ prec)) as [Hfull|Hnot].
  - (* the mantissa overflowed to 2^prec: one more shift *)
    assert (HfB : f0 < eB).
    { destruct (Z.eq_dec f0 eB) as [E|E]; [apply Hm2B in E|]; lia. }
    rewrite Hfull, Zdigits2_pow2 in He2, Hm2 by lia.
    unfold fexp in He2, Hm2. fold em in He2, Hm2.
    replace (Z.max (Z.max (prec + 1 + f0 - prec) em - f0) 0) with 1
      in He2, Hm2 by lia.
    change (2 ^ 1) with 2 in Hm2.
    assert (Hhalf : 2 ^ prec / 2 = 2 ^ (prec - 1)).
    { replace prec with (1 + (prec - 1)) at 1 by lia.
      rewrite pow2_split by lia. change (2 ^ 1) with 2.
      rewrite Z.mul_comm, Z.div_mul by lia. reflexivity. }
    rewrite Hhalf in Hm2. rewrite Hm2.
    assert (0 < 2 ^ (prec - 1)) by (apply Z.pow_pos_nonneg; lia).
    destruct (2 ^ (prec - 1)) as [|p|p]; try lia.
    assert (Hb : (e2 <=? emax - prec) = true) by (apply Z.leb_le; lia).
    rewrite Hb. exists p, e2. split; [reflexivity|lia].
  - (* no overflow: nothing is shifted *)
    assert (Hlt : m2 < 2 ^ prec).
    { destruct (Z.eq_dec f0 eB) as [E|E]; [apply Hm2B; exact E|lia]. }
    pose proof (Zdigits2_le m2 prec ltac:(lia) ltac:(lia) Hlt) as Hdg.
    unfold fexp in He2, Hm2. fold em in He2, Hm2.
    replace (Z.max (Z.max (Zdigits2 m2 + f0 - prec) em - f0) 0) with 0
      in He2, Hm2 by lia.
    rewrite Z.pow_0_r, Z.div_1_r in Hm2. rewrite Hm2.
    destruct m2 as [|p|p]; try lia.
    assert (Hb : (e2 <=? emax - prec) = true) by (apply Z.leb_le; lia).
    rewrite Hb. exists p, e2. split; [reflexivity|lia].
Qed.

(** Subtracting a nonnegative datum from one below [2^(eB + prec)] gives a
    datum below [2^(eB + prec)]. *)
Lemma sub_below_pow2 (x k : spec_float) (mB : positive) (eB : Z) :
  Zpos mB = 2 ^ (prec - 1) ->
  emin prec emax <= eB -> eB <= emax - prec ->
  valid_binary prec emax x = true ->
  valid_binary prec emax k = true ->
  SFleb (S754_zero false) x = true ->
  SFltb x k = true ->
  SFltb k (S754_finite false mB (eB + 1)) = true ->
  SFltb (SFsub prec emax k x) (S754_finite false mB (eB + 1)) = true.
Proof.
  intros HmB HeB HeBmax Vx Vk H0x Hxk HkB.
  destruct x as [sx|sx| |sx mx ex]; try discriminate.
  - (* x is a zero: k - x is k *)
    destruct k as [sk|sk| |sk mk ek]; try discriminate; exact HkB.
  - (* x = +infinity is below no k *)
    destruct sx; try discriminate.
    destruct k as [sk|sk| |sk mk ek]; try discriminate.
    destruct sk; discriminate.
  - destruct sx; try discriminate.
    destruct k as [sk|sk| |sk mk ek]; try discriminate.
    { destruct sk; discriminate. }
    destruct sk; try discriminate.
    simpl in Vx, Vk.
    assert (Hc : SFcompare (S754_finite false mx ex) (S754_finite false mk ek)
                 = Some Lt).
    { unfold SFltb in Hxk.
      destruct (SFcompare _ _) as [[| |]|]; try discriminate; reflexivity. }
    pose proof (compare_Lt_aligned prec emax prec_pos _ _ _ _ _ _ Vx Vk Hc)
      as Hal.
    unfold cond_Zopp in Hal.
    destruct (bounded_facts prec emax _ _ Vx) as (Hex & _ & _).
    destruct (bounded_facts prec emax _ _ Vk) as (Hek & Hmk & Hnk).
    set (em := emin prec emax) in *.
    (* k < 2^(eB + prec) bounds its exponent *)
    assert (HekB : ek <= eB).
    { unfold SFltb in HkB. simpl in HkB.
      destruct (Z.compare_spec ek (eB + 1)) as [E|E|E]; try discriminate.
      - exfalso. subst ek.
        change (Pos.compare_cont Eq mk mB) with (Pos.compare mk mB) in HkB.
        destruct (Pos.compare_spec mk mB) as [E'|E'|E']; try discriminate.
        apply Pos2Z.pos_lt_pos in E'. specialize (Hnk ltac:(lia)). lia.
      - lia. }
    unfold SFsub, binary_normalize. cbn [cond_Zopp].
    rewrite !shl_align_value by lia.
    rewrite (Z.min_comm ek ex).
    set (ez := Z.min ex ek) in *.
    destruct (Zpos mk * 2 ^ (ek - ez) - Zpos mx * 2 ^ (ex - ez))
      as [|D|D] eqn:HD; try lia.
    destruct (binary_round_le_bound D ez eB) as (m & e & -> & He);
      try lia.
    + fold em.
      assert (H1 : Zpos D <= Zpos mk * 2 ^ (ek - ez)).
      { assert (0 < 2 ^ (ex - ez)) by (apply Z.pow_pos_nonneg; lia). nia. }
      assert (H2 : 0 < 2 ^ (ez - em)) by (apply Z.pow_pos_nonneg; lia).
      assert (H3 : Zpos D * 2 ^ (ez - em)
                   <= Zpos mk * (2 ^ (ek - ez) * 2 ^ (ez - em))) by nia.
      rewrite <- pow2_split in H3 by lia.
      replace (ek - ez + (ez - em)) with (ek - em) in H3 by lia.
      assert (H4 : 2 ^ (ek - em) <= 2 ^ (eB - em))
        by (apply Z.pow_le_mono_r; lia).
      assert (H5 : 0 < 2 ^ (ek - em)) by (apply Z.pow_pos_nonneg; lia).
      nia.
    + unfold SFltb. simpl.
      destruct (Z.compare_spec e (eB + 1)) as [E|E|E]; try lia; reflexivity.
Qed.

End RoundingBound.

Local Open Scope f32_scope.

(** * The integrator *)

(** The literals are binary32 values. *)
Lemma literals_valid :
  forallb F32.valid
    [f_0; f_1; f_2; f_65536; f_1shl15; f_1shl16; f_0_2; f_0_25; f_0_5; f_0_8]
  = true.
Proof. vm_compute. reflexivity. Qed.

(** ** The shape of [solve] *)

Lemma solve_outcome (NDEBUG : bool) (self : Integrator6581) (vi : float) :
  solve NDEBUG self vi =
  if NDEBUG || forallb (fun b => b) (solve_asserts self vi)
  then Some (vx_new self vi - vc_new self vi, solve_update self vi)
  else None.
Proof.
  unfold solve, solve_asserts, assert, solve_update.
  destruct NDEBUG; simpl; [reflexivity|].
  destruct (vx self <? kVddt self); simpl; [|reflexivity].
  destruct (vi <? kVddt self); simpl; [|reflexivity].
  destruct (Vgs self vi <? f_1shl16); simpl; [|reflexivity].
  destruct (Vgd self vi <? f_1shl16); simpl; [|reflexivity].
  destruct (tmp self vi <? f_1shl16) eqn:E;
    unfold tmp, vc_new in E; rewrite E; reflexivity.
Qed.

Lemma solve_release (self : Integrator6581) (vi : float) :
  solve true self vi =
  Some (vx_new self vi - vc_new self vi, solve_update self vi).
Proof. apply solve_outcome. Qed.

Lemma solve_Some_inv (NDEBUG : bool) (self : Integrator6581) (vi vo : float)
    (self' : Integrator6581) :
  solve NDEBUG self vi = Some (vo, self') ->
  vo = vx_new self vi - vc_new self vi /\ self' = solve_update self vi.
Proof.
  rewrite solve_outcome.
  destruct (NDEBUG || _); [|discriminate].
  intros H; inversion H; auto.
Qed.

(** A call on concrete data: the assertions are evaluated, then the result. *)
Ltac solve_by_computation :=
  rewrite solve_outcome;
  match goal with
  | |- context [forallb ?f ?l] =>
      replace (forallb f l) with true by (vm_compute; reflexivity)
  end;
  rewrite ?orb_true_r; cbn [orb];
  do 2 f_equal; vm_compute; reflexivity.

Lemma solve_update_frame (self : Integrator6581) (vi : float) :
  solve_frame self (solve_update self vi).
Proof. repeat split. Qed.


Lemma run_app (NDEBUG : bool) (cs1 cs2 : list call) :
  forall self : Integrator6581,
    run NDEBUG self (cs1 ++ cs2) =
    match run NDEBUG self cs1 with
    | None => None
    | Some (vos1, self1) =>
        match run NDEBUG self1 cs2 with
        | None => None
        | Some (vos2, self2) => Some (vos1 ++ vos2, self2)
        end
    end.
Proof.
  induction cs1 as [|c cs1 IH]; intros self; simpl.
  - destruct (run NDEBUG self cs2) as [[vos2 self2]|]; reflexivity.
  - destruct c as [Vw|vi].
    + apply IH.
    + destruct (solve NDEBUG self vi) as [[vo self']|]; [|reflexivity].
      rewrite IH.
      destruct (run NDEBUG self' cs1) as [[vos1 self1]|]; [|reflexivity].
      destruct (run NDEBUG self1 cs2) as [[vos2 self2]|]; reflexivity.
Qed.

Lemma run_release_returns (cs : list call) :
  forall self : Integrator6581, exists r, run true self cs = Some r.
Proof.
  induction cs as [|c cs IH]; intros self; cbn [run].
  - eauto.
  - destruct c as [Vw|vi]; [apply IH|].
    rewrite solve_release.
    destruct (IH (solve_update self vi)) as [[vos self'] ->]. eauto.
Qed.

(** ** C1: one call performs steps 1 to 8 *)

(** The clamp of the source, [(x < k) ? k - x : 0.], is the maximum of
    [k - x] and 0 on all [float] values, infinities and NaN included. *)
Lemma clamp_is_max (x k : float) :
  F32.valid x = true -> F32.valid k = true ->
  (if x <? k then k - x else f_0) = F32.max (k - x) f_0.
Proof.
  intros Vx Vk. unfold F32.max, F32.ltb, F32.sub, f_0, F32.zero.
  rewrite (ltb_zero_sub F32.prec F32.emax ltac:(reflexivity) x k Vx Vk).
  reflexivity.
Qed.

(** C1, as amended.  Where assertions are compiled in, for every state and
    input with [vx < kVddt], [vi < kVddt] and the three later domain
    checks true ([Vgs < 2^16], [Vgd < 2^16], [vc_new/2 + 32768 < 2^16]),
    and with [NDEBUG] for every state and input without any condition, one
    call [solve(vi)] returns and performs exactly steps 1 to 8:
    [Vgst = kVddt - vx], [Vgdt = kVddt - vi],
    [kVg = vcr_kVg.output(((Vddt_Vw_2 + Vgdt^2)/2)/65536)], the clamps
    [Vgs = max(kVg - vx, 0)] and [Vgd = max(kVg - vi, 0)], the update of
    [vc] by [n_snake*(Vgst^2 - Vgdt^2)/65536] plus the table difference,
    [vx = opamp_rev.output(vc_new/2 + 32768)], result [vx_new - vc_new];
    nothing but [vx] and [vc] changes. *)
Theorem solve_performs_steps :
  forall (NDEBUG : bool) (self : Integrator6581) (vi : float),
    let Vgst := kVddt self - vx self in
    let Vgdt := kVddt self - vi in
    let kVg := output (vcr_kVg self)
                 (((Vddt_Vw_2 self + Vgdt * Vgdt) / f_2) / f_65536) in
    let Vgs := if vx self <? kVg then kVg - vx self else f_0 in
    let Vgd := if vi <? kVg then kVg - vi else f_0 in
    let vc' := vc self
               + ((n_snake self * (Vgst * Vgst - Vgdt * Vgdt)) / f_65536
                  + (output (vcr_n_Ids_term self) Vgs
                     - output (vcr_n_Ids_term self) Vgd)) in
    let vx' := output (opamp_rev self) (vc' / f_2 + f_1shl15) in
    (NDEBUG = false ->
       (vx self <? kVddt self) = true /\
       (vi <? kVddt self) = true /\
       (Vgs <? f_1shl16) = true /\ (Vgd <? f_1shl16) = true /\
       (vc' / f_2 + f_1shl15 <? f_1shl16) = true) ->
    solve NDEBUG self vi =
    Some (vx' - vc',
          {| vcr_kVg := vcr_kVg self;
             vcr_n_Ids_term := vcr_n_Ids_term self;
             opamp_rev := opamp_rev self;
             Vddt_Vw_2 := Vddt_Vw_2 self;
             vx := vx';
             vc := vc';
             kVddt := kVddt self;
             n_snake := n_snake self |}) /\
    (F32.valid (vx self) = true -> F32.valid vi = true ->
     F32.valid kVg = true ->
     Vgs = F32.max (kVg - vx self) f_0 /\ Vgd = F32.max (kVg - vi) f_0).
Proof.
  intros NDEBUG self vi Vgst0 Vgdt0 kVg0 Vgs0 Vgd0 vc' vx' Hdom.
  split.
  - rewrite solve_outcome.
    assert (Hall : NDEBUG || forallb (fun b => b) (solve_asserts self vi)
                   = true).
    { destruct NDEBUG; [reflexivity|].
      destruct (Hdom eq_refl) as (Hx & Hi & H1 & H2 & H3).
      unfold solve_asserts; simpl.
      rewrite Hx, Hi. simpl.
      change (Vgs self vi) with Vgs0. change (Vgd self vi) with Vgd0.
      change (tmp self vi) with (vc' / f_2 + f_1shl15).
      rewrite H1, H2, H3. reflexivity. }
    rewrite Hall. reflexivity.
  - intros Vx Vi Vk. split; apply clamp_is_max; assumption.
Qed.

(** The fresh regression instance meets every condition where assertions
    are compiled in; with [NDEBUG] the call from [vx = 32768 >= kVddt]
    performs the steps as well. *)
Lemma solve_performs_steps_witness :
  (exists r, solve false golden f_0_2 = Some r) /\
  (exists r, solve true (set_vx golden f_1shl15) f_0_2 = Some r) /\
  Vgs golden f_0_2 = F32.max (kVg golden f_0_2 - vx golden) f_0.
Proof.
  destruct (solve_performs_steps false golden f_0_2) as [Hs Hmax].
  - intros _. vm_compute. repeat split.
  - destruct (solve_performs_steps true (set_vx golden f_1shl15) f_0_2)
      as [Hr _].
    + intros H. discriminate H.
    + split; [eexists; exact Hs|]. split; [eexists; exact Hr|].
      apply Hmax; vm_compute; reflexivity.
Defined.

(** C1 as stated fails where assertions are compiled in: a fresh instance
    ([vx = 0 < 1 = kVddt]) whose gate-voltage table returns 70000, called
    with [vi = 0 < 1], aborts at [assert(Vgs < (1 << 16))] and returns
    nothing. *)
Lemma solve_steps_abort :
  (vx high_gate <? kVddt high_gate) = true /\
  (f_0 <? kVddt high_gate) = true /\
  solve false high_gate f_0 = None.
Proof. vm_compute. repeat split. Qed.

(** ** C2: the regression value *)

(** The binary32 inputs and the nominal decimals of the regression test. *)
Lemma golden_inputs :
  F32.near f_1 1 0 = true /\
  F32.near f_0_5 (1 # 2) 0 = true /\
  F32.near f_0_25 (1 # 4) 0 = true /\
  F32.near f_0_2 (2 # 10) (1 # 2 ^ 27) = true /\
  F32.near f_0_8 (8 # 10) (1 # 2 ^ 25) = true /\
  f_1 - f_0_5 = f_0_5 /\ f_0_5 * f_0_5 = f_0_25 /\
  f_1 - f_0 = f_1 /\ f_1 - f_0_2 = f_0_8.
Proof. repeat split; vm_compute; reflexivity. Qed.

(** C2.  With [kVddt = 1], [n_snake = 1], three identity tables and the
    constructor's [vx = vc = 0], [setVw(0.5)] followed by [solve(0.2)]
    returns, in either build, exactly the value of steps 1 to 8 carried out
    by hand in binary32: [Vddt_Vw_2 = 0.25], [Vgst = 1], [Vgdt = 1 - 0.2]
    (the float 0.8), [n_I_snake = Vgst^2 - Vgdt^2] (0.36 to within 2^-24),
    [kVg = ((0.25 + Vgdt^2)/2)/65536] (0.89/131072 to within 2^-40),
    [Vgs = kVg], [Vgd = 0], [vc = n_I_snake/65536 + kVg],
    [vx = vc/2 + 32768], result [vx - vc]; that value is the float 32768,
    within 10^-5 of the real number 32768 - 1.61/262144. *)
Theorem golden_regression :
  forall NDEBUG : bool,
    let Vddt_Vw_2' := f_0_25 in
    let Vgst' := f_1 in
    let Vgdt' := f_0_8 in
    let n_I_snake' := f_1 * (Vgst' * Vgst' - Vgdt' * Vgdt') in
    let kVg' := ((Vddt_Vw_2' + Vgdt' * Vgdt') / f_2) / f_65536 in
    let Vgs' := kVg' in
    let Vgd' := f_0 in
    let vc' := n_I_snake' / f_65536 + kVg' in
    let vx' := vc' / f_2 + f_1shl15 in
    let self := setVw golden f_0_5 in
    Vddt_Vw_2 self = Vddt_Vw_2' /\
    Vgst self = Vgst' /\
    Vgdt self f_0_2 = Vgdt' /\
    n_I_snake self f_0_2 = n_I_snake' /\
    kVg self f_0_2 = kVg' /\
    Vgs self f_0_2 = Vgs' /\
    Vgd self f_0_2 = Vgd' /\
    solve NDEBUG self f_0_2 =
      Some (vx' - vc', set_vx (set_vc self vc') vx') /\
    vx' - vc' = f_1shl15 /\
    F32.near n_I_snake' (36 # 100) (1 # 2 ^ 24) = true /\
    F32.near kVg' (89 # 13107200) (1 # 2 ^ 40) = true /\
    F32.near vc' (161 # 13107200) (1 # 2 ^ 40) = true /\
    F32.near (vx' - vc') (32768 - (161 # 26214400)) (1 # 100000) = true.
Proof.
  intros NDEBUG. cbv zeta.
  rewrite solve_outcome.
  replace (forallb (fun b => b) (solve_asserts (setVw golden f_0_5) f_0_2))
    with true by (vm_compute; reflexivity).
  rewrite orb_true_r.
  repeat split; vm_compute; reflexivity.
Qed.

(** ** C3: the operating region of [vx] *)

Lemma solve_checked_tmp (self : Integrator6581) (vi : float)
    (r : float * Integrator6581) :
  solve false self vi = Some r -> (tmp self vi <? f_1shl16) = true.
Proof.
  rewrite solve_outcome. cbn [orb].
  destruct (forallb (fun b => b) (solve_asserts self vi)) eqn:Ha;
    [|discriminate].
  intros _. unfold solve_asserts in Ha. cbn [forallb] in Ha.
  rewrite !andb_true_iff in Ha. tauto.
Qed.

Lemma solve_in_region (NDEBUG : bool) (self : Integrator6581)
    (vi vo : float) (self' : Integrator6581) :
  opamp_lookups_below_kVddt NDEBUG self ->
  solve NDEBUG self vi = Some (vo, self') ->
  in_region self'.
Proof.
  intros Htab Hs.
  assert (Ht : NDEBUG = false -> (tmp self vi <? f_1shl16) = true).
  { intros ->. apply (solve_checked_tmp _ _ _ Hs). }
  apply solve_Some_inv in Hs. destruct Hs as [_ ->].
  unfold in_region. cbn [solve_update set_vx set_vc vx kVddt].
  apply Htab. exact Ht.
Qed.

Lemma run_in_region (NDEBUG : bool) (cs : list call) :
  forall (self : Integrator6581) (vos : list float) (self' : Integrator6581),
    opamp_lookups_below_kVddt NDEBUG self -> in_region self ->
    run NDEBUG self cs = Some (vos, self') ->
    in_region self'.
Proof.
  induction cs as [|c cs IH]; intros self vos self' Htab Hreg Hrun;
    cbn [run] in Hrun.
  - inversion Hrun; subst. exact Hreg.
  - destruct c as [Vw|vi].
    + apply (IH (setVw self Vw) vos self'); auto.
    + destruct (solve NDEBUG self vi) as [[vo self1]|] eqn:Hs; [|discriminate].
      destruct (run NDEBUG self1 cs) as [[vos1 self2]|] eqn:Hr; [|discriminate].
      inversion Hrun; subst.
      pose proof (solve_in_region _ _ _ _ _ Htab Hs) as Hreg1.
      apply solve_Some_inv in Hs. destruct Hs as [_ ->].
      apply (IH (solve_update self vi) vos1 self'); auto.
Qed.

(** C3, as amended.  If every entry of the [opamp_rev] table that a call
    can look up is strictly below [kVddt] (where assertions are compiled
    in: the entries at arguments below [2^16], the last assertion; with
    [NDEBUG]: every entry), then for every state and input the [vx] that a
    returning [solve(vi)] stores, which is
    [opamp_rev.output(vc_new/2 + 32768)], is strictly below [kVddt];
    [setVw] keeps [vx] and [kVddt]; and so [vx < kVddt] holds after every
    sequence of [solve] and [setVw] calls started from a state with
    [vx < kVddt]. *)
Theorem region_preserved :
  forall (NDEBUG : bool) (self : Integrator6581),
    opamp_lookups_below_kVddt NDEBUG self ->
    (forall (vi vo : float) (self' : Integrator6581),
        solve NDEBUG self vi = Some (vo, self') ->
        vx self'
        = output (opamp_rev self) (vc_new self vi / f_2 + f_1shl15) /\
        in_region self') /\
    (forall Vw : float,
        vx (setVw self Vw) = vx self /\ kVddt (setVw self Vw) = kVddt self) /\
    (forall (cs : list call) (vos : list float) (self' : Integrator6581),
        in_region self ->
        run NDEBUG self cs = Some (vos, self') -> in_region self').
Proof.
  intros NDEBUG self Htab. split; [|split].
  - intros vi vo self' Hs. split.
    + apply solve_Some_inv in Hs. destruct Hs as [_ ->]. reflexivity.
    + apply (solve_in_region _ _ _ _ _ Htab Hs).
  - intros Vw. split; reflexivity.
  - intros cs vos self' Hreg Hrun.
    apply (run_in_region NDEBUG cs self vos self' Htab Hreg Hrun).
Qed.

(** A table with [output(NaN) = NaN] meets the condition where assertions
    are compiled in; the state need not be in the region before the run
    of the first conjunct. *)
Lemma region_preserved_witness :
  in_region (solve_update nan_passing f_0_2) /\
  (forall (vos : list float) (self' : Integrator6581),
      run false nan_passing [CallSolve f_0_2; CallSetVw f_0_5; CallSolve f_0_2]
      = Some (vos, self') -> in_region self').
Proof.
  assert (Htab : opamp_lookups_below_kVddt false nan_passing).
  { intros x H. specialize (H eq_refl).
    destruct x; try reflexivity. discriminate H. }
  destruct (region_preserved false nan_passing Htab) as (H1 & _ & H3).
  split.
  - apply (H1 f_0_2 (vx_new nan_passing f_0_2 - vc_new nan_passing f_0_2)).
    rewrite solve_outcome.
    replace (forallb (fun b => b) (solve_asserts nan_passing f_0_2))
      with true by (vm_compute; reflexivity).
    reflexivity.
  - intros vos self'. apply H3. reflexivity.
Defined.

(** C3 as stated fails: in the regression instance ([vx = 0 < 1])
    [solve(0.2)] returns in both builds and stores [vx = 32768], which is
    not below [kVddt = 1]. *)
Lemma region_not_preserved :
  in_region (setVw golden f_0_5) /\
  (f_0_2 <? kVddt (setVw golden f_0_5)) = true /\
  solve false (setVw golden f_0_5) f_0_2
  = Some (f_1shl15, solve_update (setVw golden f_0_5) f_0_2) /\
  solve true (setVw golden f_0_5) f_0_2
  = Some (f_1shl15, solve_update (setVw golden f_0_5) f_0_2) /\
  vx (solve_update (setVw golden f_0_5) f_0_2) = f_1shl15 /\
  (vx (solve_update (setVw golden f_0_5) f_0_2)
   <? kVddt (solve_update (setVw golden f_0_5) f_0_2)) = false.
Proof. repeat split; vm_compute; reflexivity. Qed.

(** ** C4: the domain of the clamped overdrive voltages *)

Lemma leb_zero_of_sign (x : float) :
  has_sign false x -> (f_0 <=? x) = true.
Proof.
  destruct x as [s|s| |s m e]; simpl; intros H; try contradiction;
    subst; reflexivity.
Qed.

Lemma clamp_nonneg (x k : float) :
  F32.valid x = true -> F32.valid k = true ->
  (f_0 <=? (if x <? k then k - x else f_0)) = true.
Proof.
  intros Vx Vk. destruct (x <? k) eqn:Hlt; [|reflexivity].
  apply leb_zero_of_sign.
  apply (sub_sign_of_ltb F32.prec F32.emax ltac:(reflexivity) x k Vx Vk Hlt).
Qed.

Lemma clamp_below_2_16 (x k : float) :
  F32.valid x = true -> F32.valid k = true ->
  (f_0 <=? x) = true -> (k <? f_1shl16) = true ->
  ((if x <? k then k - x else f_0) <? f_1shl16) = true.
Proof.
  intros Vx Vk H0 Hk. destruct (x <? k) eqn:Hlt; [|reflexivity].
  apply (sub_below_pow2 F32.prec F32.emax ltac:(reflexivity) x k
           8388608 (-8) eq_refl ltac:(discriminate) ltac:(discriminate)
           Vx Vk H0 Hlt Hk).
Qed.

Lemma clamp_below_2_16_iff (x k : float) :
  ((if x <? k then k - x else f_0) <? f_1shl16)
  = (if x <? k then k - x <? f_1shl16 else true).
Proof. destruct (x <? k); reflexivity. Qed.

(** C4, as amended.  For every state and input made of [float] values
    (infinities and NaN included), the clamped [Vgs] and [Vgd] are
    nonnegative (never negative, never a NaN).  When moreover [vx] (for
    [Vgd]: [vi]) is nonnegative and the table entry [kVg] is below [2^16],
    they are strictly below [2^16], so that both assertions hold.  In
    general [Vgs < 2^16] holds exactly when the comparison [vx < kVg] is
    false (the clamp then gives 0; so it is when [kVg] or [vx] is a NaN)
    or [kVg - vx < 2^16], and likewise [Vgd] with [vi]. *)
Theorem clamped_overdrive_domain :
  forall (self : Integrator6581) (vi : float),
    F32.valid (vx self) = true ->
    F32.valid vi = true ->
    F32.valid (kVg self vi) = true ->
    (f_0 <=? Vgs self vi) = true /\
    (f_0 <=? Vgd self vi) = true /\
    ((f_0 <=? vx self) = true -> (kVg self vi <? f_1shl16) = true ->
     (Vgs self vi <? f_1shl16) = true) /\
    ((f_0 <=? vi) = true -> (kVg self vi <? f_1shl16) = true ->
     (Vgd self vi <? f_1shl16) = true) /\
    (Vgs self vi <? f_1shl16)
    = (if vx self <? kVg self vi
       then kVg self vi - vx self <? f_1shl16 else true) /\
    (Vgd self vi <? f_1shl16)
    = (if vi <? kVg self vi
       then kVg self vi - vi <? f_1shl16 else true).
Proof.
  intros self vi Vx Vi Vk. unfold Vgs, Vgd.
  split; [apply clamp_nonneg; assumption|].
  split; [apply clamp_nonneg; assumption|].
  split; [intros H0 Hk; apply clamp_below_2_16; assumption|].
  split; [intros H0 Hk; apply clamp_below_2_16; assumption|].
  split; apply clamp_below_2_16_iff.
Qed.

Lemma clamped_overdrive_domain_witness :
  (f_0 <=? Vgs (setVw golden f_0_5) f_0_2) = true /\
  (f_0 <=? Vgd (setVw golden f_0_5) f_0_2) = true /\
  (Vgs (setVw golden f_0_5) f_0_2 <? f_1shl16) = true /\
  (Vgd (setVw golden f_0_5) f_0_2 <? f_1shl16) = true.
Proof.
  destruct (clamped_overdrive_domain (setVw golden f_0_5) f_0_2)
    as (H1 & H2 & H3 & H4 & _).
  - vm_compute; reflexivity.
  - vm_compute; reflexivity.
  - vm_compute; reflexivity.
  - split; [exact H1|]. split; [exact H2|].
    split; [apply H3|apply H4]; vm_compute; reflexivity.
Defined.

(** C4 as stated fails: for the fresh instance whose gate-voltage table
    holds 70000, [vx = 0 < 1] and [vi = 0 < 1], yet [Vgs = 70000] is not
    below [2^16] and [assert(Vgs < (1 << 16))] fails. *)
Lemma overdrive_out_of_domain :
  (vx high_gate <? kVddt high_gate) = true /\
  (f_0 <? kVddt high_gate) = true /\
  Vgs high_gate f_0 = f_70000 /\
  (Vgs high_gate f_0 <? f_1shl16) = false /\
  nth 2 (solve_asserts high_gate f_0) true = false.
Proof. repeat split; vm_compute; reflexivity. Qed.

(** ** C5, C6: [setVw] *)

(** C5.  [setVw(Vw)] sets the cached [Vddt_Vw_2] to [(kVddt - Vw)] times
    itself, whatever the constant, the argument and the value cached
    before. *)
Theorem setVw_caches_square :
  forall (self : Integrator6581) (Vw : float),
    Vddt_Vw_2 (setVw self Vw) = (kVddt self - Vw) * (kVddt self - Vw).
Proof. intros self Vw. reflexivity. Qed.

Lemma setVw_setVw (self : Integrator6581) (Vw0 Vw : float) :
  setVw (setVw self Vw0) Vw = setVw self Vw.
Proof. reflexivity. Qed.

Lemma setVw_frame_holds (self : Integrator6581) (Vw : float) :
  setVw_frame self (setVw self Vw).
Proof. repeat split. Qed.

(** C6.  [setVw(Vw)] changes [Vddt_Vw_2] and no other field ([vx], [vc],
    the constants and the tables stay).  Its effect is never retroactive:
    the outputs of the calls made before it are those of the run without
    it, and the run continues from the state that differs in the cached
    parameter only. *)
Theorem setVw_isolation :
  forall (NDEBUG : bool) (self : Integrator6581) (Vw : float)
         (before after : list call) (vos : list float) (self1 : Integrator6581),
    run NDEBUG self before = Some (vos, self1) ->
    setVw_frame self1 (setVw self1 Vw) /\
    run NDEBUG self (before ++ CallSetVw Vw :: after) =
    match run NDEBUG (setVw self1 Vw) after with
    | None => None
    | Some (vos', self2) => Some (vos ++ vos', self2)
    end.
Proof.
  intros NDEBUG self Vw before after vos self1 Hrun.
  split; [apply setVw_frame_holds|].
  rewrite run_app, Hrun. reflexivity.
Qed.

Lemma setVw_isolation_witness :
  run true golden ([CallSetVw f_0_5; CallSolve f_0_2]
                     ++ CallSetVw f_0_2 :: [CallSolve f_0_2])
  = match run true (setVw (solve_update (setVw golden f_0_5) f_0_2) f_0_2)
            [CallSolve f_0_2] with
    | None => None
    | Some (vos', self2) => Some ([f_1shl15] ++ vos', self2)
    end.
Proof.
  apply (setVw_isolation true golden f_0_2
           [CallSetVw f_0_5; CallSolve f_0_2] [CallSolve f_0_2]
           [f_1shl15] (solve_update (setVw golden f_0_5) f_0_2)).
  cbn [run]. rewrite solve_release. reflexivity.
Defined.

(** ** C7: determinism *)

Section SameInstance.

Variables a b : Integrator6581.
Hypothesis Hcal : same_calibration a b.
Hypothesis Hst : same_state a b.
Variable vi : float.

Lemma same_Vgst : Vgst a = Vgst b.
Proof.
  destruct Hcal as (_ & _ & _ & Hk & _), Hst as (_ & Hx & _).
  unfold Vgst. rewrite Hk, Hx. reflexivity.
Qed.

Lemma same_Vgdt : Vgdt a vi = Vgdt b vi.
Proof.
  destruct Hcal as (_ & _ & _ & Hk & _).
  unfold Vgdt. rewrite Hk. reflexivity.
Qed.

Lemma same_n_I_snake : n_I_snake a vi = n_I_snake b vi.
Proof.
  destruct Hcal as (_ & _ & _ & _ & Hn).
  unfold n_I_snake, Vgst_2, Vgdt_2.
  rewrite same_Vgst, same_Vgdt, Hn. reflexivity.
Qed.

Lemma same_kVg : kVg a vi = kVg b vi.
Proof.
  destruct Hcal as (Hg & _), Hst as (Hw & _).
  unfold kVg, Vgdt_2. rewrite same_Vgdt, Hw. apply Hg.
Qed.

Lemma same_Vgs : Vgs a vi = Vgs b vi.
Proof.
  destruct Hst as (_ & Hx & _).
  unfold Vgs. rewrite same_kVg, Hx. reflexivity.
Qed.

Lemma same_Vgd : Vgd a vi = Vgd b vi.
Proof. unfold Vgd. rewrite same_kVg. reflexivity. Qed.

Lemma same_n_I_vcr : n_I_vcr a vi = n_I_vcr b vi.
Proof.
  destruct Hcal as (_ & Hi & _).
  unfold n_I_vcr. rewrite same_Vgs, same_Vgd, !Hi. reflexivity.
Qed.

Lemma same_vc_new : vc_new a vi = vc_new b vi.
Proof.
  destruct Hst as (_ & _ & Hc).
  unfold vc_new. rewrite same_n_I_snake, same_n_I_vcr, Hc. reflexivity.
Qed.

Lemma same_tmp : tmp a vi = tmp b vi.
Proof. unfold tmp. rewrite same_vc_new. reflexivity. Qed.

Lemma same_vx_new : vx_new a vi = vx_new b vi.
Proof.
  destruct Hcal as (_ & _ & Ho & _).
  unfold vx_new. rewrite same_tmp. apply Ho.
Qed.

Lemma same_solve_asserts : solve_asserts a vi = solve_asserts b vi.
Proof.
  destruct Hcal as (_ & _ & _ & Hk & _), Hst as (_ & Hx & _).
  unfold solve_asserts.
  rewrite same_Vgs, same_Vgd, same_tmp, Hk, Hx. reflexivity.
Qed.

Lemma same_solve_update :
  same_calibration (solve_update a vi) (solve_update b vi) /\
  same_state (solve_update a vi) (solve_update b vi).
Proof.
  split.
  - exact Hcal.
  - destruct Hst as (Hw & _).
    repeat split; simpl; auto using same_vx_new, same_vc_new.
Qed.

End SameInstance.

Lemma same_setVw (a b : Integrator6581) (Vw : float) :
  same_calibration a b -> same_state a b ->
  same_calibration (setVw a Vw) (setVw b Vw) /\
  same_state (setVw a Vw) (setVw b Vw).
Proof.
  intros Hcal Hst. split; [exact Hcal|].
  destruct Hcal as (_ & _ & _ & Hk & _), Hst as (_ & Hx & Hc).
  repeat split; simpl; auto. rewrite Hk. reflexivity.
Qed.

Lemma run_agree (NDEBUG : bool) (cs : list call) :
  forall a b : Integrator6581,
    same_calibration a b -> same_state a b ->
    runs_agree (run NDEBUG a cs) (run NDEBUG b cs).
Proof.
  induction cs as [|c cs IH]; intros a b Hcal Hst; simpl.
  - auto.
  - destruct c as [Vw|vi].
    + destruct (same_setVw a b Vw Hcal Hst) as [Hcal' Hst'].
      apply IH; assumption.
    + rewrite !solve_outcome.
      rewrite (same_solve_asserts a b Hcal Hst vi).
      destruct (NDEBUG || _); simpl; [|exact I].
      destruct (same_solve_update a b Hcal Hst vi) as [Hcal' Hst'].
      specialize (IH _ _ Hcal' Hst').
      rewrite (same_vx_new a b Hcal Hst vi), (same_vc_new a b Hcal Hst vi).
      unfold runs_agree in IH.
      destruct (run NDEBUG (solve_update a vi) cs) as [[vos1 a']|],
               (run NDEBUG (solve_update b vi) cs) as [[vos2 b']|];
        simpl; try contradiction; auto.
      destruct IH as (-> & H1 & H2). auto.
Qed.

(** C7.  [solve] has no hidden input: two instances with the same
    constants, tables of equal contents and the same [Vddt_Vw_2], [vx] and
    [vc], given the same sequence of inputs in the same build, either both
    abort or return identical output sequences and end in states that
    agree again. *)
Theorem solve_deterministic :
  forall (NDEBUG : bool) (a b : Integrator6581) (vis : list float),
    same_calibration a b -> same_state a b ->
    runs_agree (solve_seq NDEBUG a vis) (solve_seq NDEBUG b vis).
Proof.
  intros NDEBUG a b vis Hcal Hst. apply run_agree; assumption.
Qed.

Lemma opp_involutive (x : float) : F32.opp (F32.opp x) = x.
Proof. destruct x as [s|s| |s m e]; simpl; rewrite ?negb_involutive; reflexivity. Qed.

Lemma solve_deterministic_witness :
  runs_agree (solve_seq true golden [f_0_2; f_0_5])
             (solve_seq true golden' [f_0_2; f_0_5]).
Proof.
  apply (solve_deterministic true golden golden' [f_0_2; f_0_5]).
  - repeat split; intros x; simpl; symmetry; apply opp_involutive.
  - repeat split.
Defined.

(** ** C8: exchanging the two terminals *)







(** ** C9: settling *)








(** ** C10: the frame of [solve] *)

(** C10.  A call of [solve] that returns has changed [vx] and [vc] only:
    the cached [Vddt_Vw_2], the constants [kVddt] and [n_snake] and the
    three tables are those of the state before; the new state is the old
    one with [vc] and then [vx] replaced. *)
Theorem solve_frame_property :
  forall (NDEBUG : bool) (self : Integrator6581) (vi vo : float)
         (self' : Integrator6581),
    solve NDEBUG self vi = Some (vo, self') ->
    solve_frame self self' /\
    self' = set_vx (set_vc self (vc self')) (vx self').
Proof.
  intros NDEBUG self vi vo self' H.
  apply solve_Some_inv in H. destruct H as [_ ->].
  split; [apply solve_update_frame | reflexivity].
Qed.

Lemma solve_frame_property_witness :
  solve_frame (setVw golden f_0_5) (solve_update (setVw golden f_0_5) f_0_2).
Proof.
  apply (solve_frame_property false (setVw golden f_0_5) f_0_2 f_1shl15).
  vm_compute. reflexivity.
Defined.

(** * Further properties of the code *)

(** ** Special values in binary32 *)

Lemma is_nan_eq (x : float) : is_nan x = true -> x = f_nan.
Proof. destruct x; try discriminate; reflexivity. Qed.

Lemma sub_nan_l (y : float) : f_nan - y = f_nan.
Proof. reflexivity. Qed.

Lemma sub_nan_r (x : float) : x - f_nan = f_nan.
Proof. destruct x; reflexivity. Qed.

Lemma add_nan_l (y : float) : f_nan + y = f_nan.
Proof. reflexivity. Qed.

Lemma add_nan_r (x : float) : x + f_nan = f_nan.
Proof. destruct x; reflexivity. Qed.

Lemma mul_nan_l (y : float) : f_nan * y = f_nan.
Proof. reflexivity. Qed.

Lemma mul_nan_r (x : float) : x * f_nan = f_nan.
Proof. destruct x; reflexivity. Qed.

Lemma div_nan_l (y : float) : f_nan / y = f_nan.
Proof. reflexivity. Qed.

Lemma ltb_nan_l (y : float) : (f_nan <? y) = false.
Proof. reflexivity. Qed.

Lemma ltb_nan_r (x : float) : (x <? f_nan) = false.
Proof. destruct x; reflexivity. Qed.

(** ** NaN in the state or the input *)

Lemma vc_new_nan (self : Integrator6581) (vi : float) :
  nan_source self vi = true -> vc_new self vi = f_nan.
Proof.
  unfold nan_source. rewrite !orb_true_iff.
  unfold vc_new, n_I_snake, Vgst_2, Vgdt_2, Vgst, Vgdt.
  intros [[[[H|H]|H]|H]|H]; apply is_nan_eq in H; rewrite H;
    repeat (rewrite ?sub_nan_l, ?sub_nan_r, ?mul_nan_l, ?mul_nan_r,
              ?div_nan_l, ?add_nan_l, ?add_nan_r);
    reflexivity.
Qed.

Lemma tmp_nan (self : Integrator6581) (vi : float) :
  nan_source self vi = true -> tmp self vi = f_nan.
Proof.
  intros H. unfold tmp. rewrite (vc_new_nan self vi H).
  rewrite div_nan_l, add_nan_l. reflexivity.
Qed.

Lemma solve_release_nan (self : Integrator6581) (vi : float) :
  nan_source self vi = true ->
  solve true self vi = Some (f_nan, solve_update self vi).
Proof.
  intros H. rewrite solve_release.
  rewrite (vc_new_nan self vi H), sub_nan_r. reflexivity.
Qed.

(** X4.  With [NDEBUG], a call in which the input, the stored [vx] or [vc], or
    one of the constants is a NaN returns NaN and stores [vc = NaN],
    whatever the tables hold. *)
Theorem nan_poisons_charge :
  forall (self : Integrator6581) (vi : float),
    nan_source self vi = true ->
    solve true self vi = Some (f_nan, solve_update self vi) /\
    vc (solve_update self vi) = f_nan.
Proof.
  intros self vi H. split.
  - apply solve_release_nan. exact H.
  - apply vc_new_nan. exact H.
Qed.

Lemma nan_poisons_charge_witness :
  solve true golden f_nan = Some (f_nan, solve_update golden f_nan).
Proof.
  apply (nan_poisons_charge golden f_nan). reflexivity.
Defined.

(** X5.  With assertions compiled in, a call in which the input, the
    stored [vx] or [vc], or one of the constants is a NaN aborts: a NaN
    compares false with everything, so one of the five assertions fails. *)
Theorem nan_aborts_checked_call :
  forall (self : Integrator6581) (vi : float),
    nan_source self vi = true -> solve false self vi = None.
Proof.
  intros self vi H. rewrite solve_outcome. cbn [orb].
  assert (Ht : (tmp self vi <? f_1shl16) = false)
    by (rewrite (tmp_nan self vi H); reflexivity).
  unfold solve_asserts. cbn [forallb]. rewrite Ht.
  destruct (vx self <? kVddt self), (vi <? kVddt self),
           (Vgs self vi <? f_1shl16), (Vgd self vi <? f_1shl16);
    reflexivity.
Qed.

Lemma nan_aborts_checked_call_witness :
  solve false golden f_nan = None.
Proof.
  apply (nan_aborts_checked_call golden f_nan). reflexivity.
Defined.

(** X6.  Once [vc] is a NaN it stays one: with [NDEBUG], every later [solve]
    returns NaN and every later state has [vc = NaN], across any sequence
    of [setVw] and [solve] calls and whatever the inputs. *)
Theorem nan_charge_is_permanent :
  forall (cs : list call) (self : Integrator6581),
    vc self = f_nan ->
    exists (vos : list float) (self' : Integrator6581),
      run true self cs = Some (vos, self') /\
      vc self' = f_nan /\
      Forall (fun vo => vo = f_nan) vos.
Proof.
  induction cs as [|c cs IH]; intros self Hc; cbn [run].
  - exists [], self. auto.
  - destruct c as [Vw|vi].
    + apply IH. exact Hc.
    + assert (Hs : nan_source self vi = true).
      { unfold nan_source. rewrite Hc. cbn [is_nan].
        rewrite orb_true_r. reflexivity. }
      rewrite (solve_release_nan self vi Hs).
      pose proof (vc_new_nan self vi Hs : vc (solve_update self vi) = f_nan)
        as Hc'.
      destruct (IH (solve_update self vi) Hc') as (vos & self' & -> & H1 & H2).
      exists (f_nan :: vos), self'. auto.
Qed.

Lemma nan_charge_is_permanent_witness :
  exists (vos : list float) (self' : Integrator6581),
    run true (solve_update golden f_nan)
        [CallSolve f_0_2; CallSetVw f_0_5; CallSolve f_0_5]
    = Some (vos, self') /\
    vc self' = f_nan /\ Forall (fun vo => vo = f_nan) vos.
Proof.
  apply (nan_charge_is_permanent
           [CallSolve f_0_2; CallSetVw f_0_5; CallSolve f_0_5]
           (solve_update golden f_nan)).
  reflexivity.
Defined.

(** ** The build does not change the result *)

Lemma solve_checked_is_release (self : Integrator6581) (vi : float)
    (r : float * Integrator6581) :
  solve false self vi = Some r -> solve true self vi = Some r.
Proof.
  rewrite !solve_outcome. cbn [orb].
  destruct (forallb _ _); [auto|discriminate].
Qed.

(** X7.  A run that completes with assertions compiled in returns the outputs
    and the final state of the same run with [NDEBUG]; the latter always
    completes. *)
Theorem checked_run_is_release_run :
  forall (cs : list call) (self : Integrator6581)
         (r : list float * Integrator6581),
    run false self cs = Some r ->
    run true self cs = Some r.
Proof.
  induction cs as [|c cs IH]; intros self r H; cbn [run] in *.
  - exact H.
  - destruct c as [Vw|vi]; [apply IH; exact H|].
    destruct (solve false self vi) as [[vo self1]|] eqn:Hs; [|discriminate].
    rewrite (solve_checked_is_release _ _ _ Hs).
    destruct (run false self1 cs) as [[vos self2]|] eqn:Hr; [|discriminate].
    rewrite (IH _ _ Hr). exact H.
Qed.

Lemma checked_run_is_release_run_witness :
  run true golden [CallSetVw f_0_5; CallSolve f_0_2]
  = Some ([f_1shl15], solve_update (setVw golden f_0_5) f_0_2).
Proof.
  apply (checked_run_is_release_run [CallSetVw f_0_5; CallSolve f_0_2] golden).
  cbn [run].
  replace (solve false (setVw golden f_0_5) f_0_2)
    with (Some (f_1shl15, solve_update (setVw golden f_0_5) f_0_2))
    by (symmetry; solve_by_computation).
  reflexivity.
Defined.

(** ** What the two guards mean *)

(** X1.  The comment of the first assertion: [vx < kVddt] holds exactly when
    the overdrive [Vgst = kVddt - vx] is strictly positive, and
    [vi < kVddt] exactly when [Vgdt = kVddt - vi] is: in binary32 the
    difference of two distinct values never rounds to zero. *)
Theorem guards_are_positive_overdrive :
  forall (self : Integrator6581) (vi : float),
    F32.valid (kVddt self) = true ->
    F32.valid (vx self) = true ->
    F32.valid vi = true ->
    (f_0 <? Vgst self) = (vx self <? kVddt self) /\
    (f_0 <? Vgdt self vi) = (vi <? kVddt self).
Proof.
  intros self vi Vk Vx Vi. unfold Vgst, Vgdt. split.
  - apply (ltb_zero_sub F32.prec F32.emax ltac:(reflexivity) _ _ Vx Vk).
  - apply (ltb_zero_sub F32.prec F32.emax ltac:(reflexivity) _ _ Vi Vk).
Qed.

Lemma guards_are_positive_overdrive_witness :
  (f_0 <? Vgst golden) = (vx golden <? kVddt golden) /\
  (f_0 <? Vgdt golden f_0_2) = (f_0_2 <? kVddt golden).
Proof.
  apply (guards_are_positive_overdrive golden f_0_2); vm_compute; reflexivity.
Defined.

(** X2.  Cutoff: the clamped [Vgs] is strictly positive exactly when
    [vx < kVg] and is [+0] otherwise; likewise [Vgd] with [vi]. *)
Theorem clamp_conducts_iff_below_gate :
  forall (self : Integrator6581) (vi : float),
    F32.valid (vx self) = true ->
    F32.valid vi = true ->
    F32.valid (kVg self vi) = true ->
    (f_0 <? Vgs self vi) = (vx self <? kVg self vi) /\
    (f_0 <? Vgd self vi) = (vi <? kVg self vi) /\
    ((vx self <? kVg self vi) = false -> Vgs self vi = f_0) /\
    ((vi <? kVg self vi) = false -> Vgd self vi = f_0).
Proof.
  intros self vi Vx Vi Vk. unfold Vgs, Vgd.
  pose proof (ltb_zero_sub F32.prec F32.emax ltac:(reflexivity) _ _ Vx Vk)
    as Hs.
  pose proof (ltb_zero_sub F32.prec F32.emax ltac:(reflexivity) _ _ Vi Vk)
    as Hd.
  change (SFltb (S754_zero false) (SFsub F32.prec F32.emax ?k ?x))
    with (f_0 <? k - x) in *.
  change (SFltb ?x ?k) with (x <? k) in Hs, Hd.
  split; [|split; [|split]].
  - destruct (vx self <? kVg self vi); [exact Hs|reflexivity].
  - destruct (vi <? kVg self vi); [exact Hd|reflexivity].
  - intros ->. reflexivity.
  - intros ->. reflexivity.
Qed.

Lemma clamp_conducts_iff_below_gate_witness :
  (f_0 <? Vgs fixed_gate f_0_2) = true /\
  Vgd fixed_gate f_0_8 = f_0.
Proof.
  destruct (clamp_conducts_iff_below_gate fixed_gate f_0_2)
    as (H1 & _); try (vm_compute; reflexivity).
  destruct (clamp_conducts_iff_below_gate fixed_gate f_0_8)
    as (_ & _ & _ & H4); try (vm_compute; reflexivity).
  split; [rewrite H1; vm_compute; reflexivity|].
  apply H4. vm_compute. reflexivity.
Defined.

(** X3.  A NaN returned by the gate-voltage table does not propagate: both
    comparisons are false, [Vgs] and [Vgd] are clamped to [+0], the two
    assertions on them hold, and the VCR current is the table entry at 0
    minus itself. *)
Theorem nan_gate_is_clamped :
  forall (self : Integrator6581) (vi : float),
    kVg self vi = f_nan ->
    Vgs self vi = f_0 /\ Vgd self vi = f_0 /\
    (Vgs self vi <? f_1shl16) = true /\
    (Vgd self vi <? f_1shl16) = true /\
    n_I_vcr self vi
    = output (vcr_n_Ids_term self) f_0 - output (vcr_n_Ids_term self) f_0.
Proof.
  intros self vi Hk.
  assert (Hs : Vgs self vi = f_0)
    by (unfold Vgs; rewrite Hk, ltb_nan_r; reflexivity).
  assert (Hd : Vgd self vi = f_0)
    by (unfold Vgd; rewrite Hk, ltb_nan_r; reflexivity).
  unfold n_I_vcr. rewrite Hs, Hd. repeat split.
Qed.

Lemma nan_gate_is_clamped_witness :
  Vgs nan_gate f_0_2 = f_0 /\ Vgd nan_gate f_0_2 = f_0.
Proof.
  destruct (nan_gate_is_clamped nan_gate f_0_2) as (H1 & H2 & _).
  - reflexivity.
  - split; assumption.
Defined.

(** ** The argument of the gate-voltage table *)

Local Close Scope f32_scope.

Section NotNegative.

Variables prec emax : Z.

Lemma ltb_zero_of_has_sign (x : spec_float) :
  has_sign false x -> SFltb x (S754_zero false) = false.
Proof.
  destruct x as [s|s| |s m e]; simpl; intros H; try contradiction;
    subst; reflexivity.
Qed.

Lemma mul_self_not_below_zero (x : spec_float) :
  SFltb (SFmul prec emax x x) (S754_zero false) = false.
Proof.
  destruct x as [s|s| |s m e]; try reflexivity;
    try (destruct s; reflexivity).
  apply ltb_zero_of_has_sign. unfold SFmul.
  rewrite xorb_nilpotent. apply binary_round_aux_sign. lia.
Qed.

Lemma add_not_below_zero (x y : spec_float) :
  SFltb x (S754_zero false) = false ->
  SFltb y (S754_zero false) = false ->
  SFltb (SFadd prec emax x y) (S754_zero false) = false.
Proof.
  destruct x as [sx|sx| |sx mx ex], y as [sy|sy| |sy my ey].
  16: { intros Hx Hy.
        destruct sx; [discriminate|]. destruct sy; [discriminate|].
        apply ltb_zero_of_has_sign. unfold SFadd.
        apply binary_normalize_nonneg. cbn [cond_Zopp]. lia. }
  all: try (destruct sx); try (destruct sy);
    intros Hx Hy; try discriminate; try reflexivity; assumption.
Qed.

Lemma div_core_nonneg (m1 m2 : positive) (e1 e2 : Z) :
  0 <= fst (fst (SFdiv_core_binary prec emax (Zpos m1) e1 (Zpos m2) e2)).
Proof.
  unfold SFdiv_core_binary.
  set (s := e1 - e2 - _).
  set (m' := match s with Z0 => Zpos m1 | Zpos _ => Z.shiftl (Zpos m1) s
                        | Zneg _ => 0 end).
  assert (Hm' : 0 <= m').
  { unfold m'. destruct s; try lia. apply Z.shiftl_nonneg. lia. }
  pose proof (Z.div_pos m' (Zpos m2) Hm' ltac:(lia)) as Hq.
  unfold Z.div in Hq.
  destruct (Z.div_eucl m' (Zpos m2)) as [q r]. exact Hq.
Qed.

Lemma div_not_below_zero (x : spec_float) (mc : positive) (ec : Z) :
  SFltb x (S754_zero false) = false ->
  SFltb (SFdiv prec emax x (S754_finite false mc ec)) (S754_zero false)
  = false.
Proof.
  destruct x as [sx|sx| |sx mx ex]; intros Hx; try reflexivity;
    try (destruct sx; try discriminate; reflexivity).
  destruct sx; [discriminate|].
  apply ltb_zero_of_has_sign. unfold SFdiv.
  pose proof (div_core_nonneg mx mc ex ec) as Hq.
  destruct (SFdiv_core_binary prec emax (Zpos mx) ex (Zpos mc) ec)
    as [[mz ez] lz].
  apply binary_round_aux_sign. exact Hq.
Qed.

End NotNegative.

Local Open Scope f32_scope.

Lemma setVw_cache_not_negative (self : Integrator6581) (Vw : float) :
  not_negative (Vddt_Vw_2 (setVw self Vw)) = true.
Proof.
  unfold not_negative. cbn [setVw set_Vddt_Vw_2 Vddt_Vw_2].
  unfold F32.ltb, F32.mul, f_0, F32.zero.
  rewrite mul_self_not_below_zero. reflexivity.
Qed.

Lemma mul_opp_opp (a : float) : F32.opp a * F32.opp a = a * a.
Proof.
  unfold F32.mul, F32.opp. rewrite mul_opp_r.
  destruct a as [s|s| |s m e]; cbn [SFopp SFmul];
    rewrite ?negb_involutive, ?xorb_negb_negb; try reflexivity.
  - destruct s; reflexivity.
  - destruct s; reflexivity.
  - rewrite <- binary_round_aux_opp, negb_xorb_l, negb_involutive.
    reflexivity.
Qed.

(** X8.  [setVw] never caches a value below zero: for every [kVddt] and [Vw],
    infinities and NaN included, [Vddt_Vw_2] is a zero, positive or a
    NaN, and it is the same for two values of [Vw] at opposite distances
    from [kVddt]. *)
Theorem setVw_not_negative :
  forall (self : Integrator6581) (Vw Vw' : float),
    not_negative (Vddt_Vw_2 (setVw self Vw)) = true /\
    (kVddt self - Vw' = F32.opp (kVddt self - Vw) ->
     Vddt_Vw_2 (setVw self Vw') = Vddt_Vw_2 (setVw self Vw)).
Proof.
  intros self Vw Vw'. split.
  - apply setVw_cache_not_negative.
  - intros H. cbn [setVw set_Vddt_Vw_2 Vddt_Vw_2]. rewrite H.
    apply mul_opp_opp.
Qed.

Lemma setVw_not_negative_witness :
  Vddt_Vw_2 (setVw golden (f_1 + f_0_5)) = Vddt_Vw_2 (setVw golden f_0_5).
Proof.
  apply (setVw_not_negative golden f_0_5 (f_1 + f_0_5)).
  vm_compute. reflexivity.
Defined.

Lemma kVg_index_of_cache (self : Integrator6581) (vi : float) :
  not_negative (Vddt_Vw_2 self) = true ->
  not_negative (kVg_index self vi) = true.
Proof.
  unfold not_negative, kVg_index, Vgdt_2. intros H.
  apply negb_true_iff in H. apply negb_true_iff.
  unfold F32.ltb, F32.div, F32.add, F32.mul, f_0, F32.zero, f_65536, f_2 in *.
  apply div_not_below_zero, div_not_below_zero, add_not_below_zero.
  - exact H.
  - apply mul_self_not_below_zero.
Qed.

Lemma run_cache_not_negative (NDEBUG : bool) (cs : list call) :
  forall (self : Integrator6581) (vos : list float) (self' : Integrator6581),
    not_negative (Vddt_Vw_2 self) = true ->
    run NDEBUG self cs = Some (vos, self') ->
    not_negative (Vddt_Vw_2 self') = true.
Proof.
  induction cs as [|c cs IH]; intros self vos self' Hc Hrun;
    cbn [run] in Hrun.
  - inversion Hrun; subst. exact Hc.
  - destruct c as [Vw|vi].
    + apply (IH (setVw self Vw) vos self'); [|exact Hrun].
      apply setVw_cache_not_negative.
    + destruct (solve NDEBUG self vi) as [[vo self1]|] eqn:Hs; [|discriminate].
      destruct (run NDEBUG self1 cs) as [[vos1 self2]|] eqn:Hr; [|discriminate].
      inversion Hrun; subst.
      apply solve_Some_inv in Hs. destruct Hs as [_ ->].
      apply (IH (solve_update self vi) vos1 self'); [exact Hc|exact Hr].
Qed.

(** X9.  The gate-voltage table is never looked up below zero.  In every state
    reached from a constructed instance by [setVw] and [solve] calls, and
    for every input (infinities and NaN included), the cached [Vddt_Vw_2]
    is not negative and the argument [((Vddt_Vw_2 + Vgdt^2)/2)/65536] that
    [solve] passes to [vcr_kVg.output] is a zero, positive or a NaN. *)
Theorem kVg_index_not_negative :
  forall (NDEBUG : bool) (t1 t2 t3 : LUT) (k n : float) (cs : list call)
         (vos : list float) (self' : Integrator6581) (vi : float),
    run NDEBUG (Integrator6581_new t1 t2 t3 k n) cs = Some (vos, self') ->
    not_negative (Vddt_Vw_2 self') = true /\
    not_negative (kVg_index self' vi) = true /\
    kVg self' vi = output (vcr_kVg self') (kVg_index self' vi).
Proof.
  intros NDEBUG t1 t2 t3 k n cs vos self' vi Hrun.
  assert (Hc : not_negative (Vddt_Vw_2 self') = true).
  { apply (run_cache_not_negative NDEBUG cs
             (Integrator6581_new t1 t2 t3 k n) vos self'); [|exact Hrun].
    reflexivity. }
  split; [exact Hc|]. split; [|reflexivity].
  apply kVg_index_of_cache. exact Hc.
Qed.

Lemma kVg_index_not_negative_witness :
  not_negative (kVg_index (setVw golden f_0_5) f_m4) = true.
Proof.
  apply (kVg_index_not_negative true identity_LUT identity_LUT identity_LUT
           f_1 f_1 [CallSetVw f_0_5] [] (setVw golden f_0_5) f_m4).
  reflexivity.
Defined.

(** ** No voltage across the resistors *)

Lemma sub_self_finite (a : float) : is_finite a = true -> a - a = f_0.
Proof.
  destruct a as [s|s| |s m e]; try discriminate; intros _.
  - destruct s; reflexivity.
  - unfold F32.sub, SFsub. rewrite Z.sub_diag. reflexivity.
Qed.

Lemma add_zero_r_sim_self (x : float) (s : bool) :
  F32.sim (x + S754_zero s) x.
Proof.
  destruct x as [sx|sx| |sx mx ex]; try apply sim_refl.
  destruct sx, s; apply sim_zero.
Qed.

(** X10.  When the input equals the stored [vx] and the values involved are
    finite, no charge flows: the snake term and the VCR term are both
    zero, the increment [n_I_snake/65536 + n_I_vcr] is a zero and [vc]
    keeps its value (up to the sign of a zero). *)
Theorem no_charge_between_equal_terminals :
  forall self : Integrator6581,
    is_finite (n_snake self) = true ->
    is_finite (Vgst_2 self) = true ->
    is_finite (output (vcr_n_Ids_term self) (Vgs self (vx self))) = true ->
    n_I_vcr self (vx self) = f_0 /\
    (exists s, charge_increment self (vx self) = S754_zero s) /\
    F32.sim (vc_new self (vx self)) (vc self).
Proof.
  intros self Hn HA HT.
  assert (Hv : n_I_vcr self (vx self) = f_0).
  { unfold n_I_vcr.
    change (Vgd self (vx self)) with (Vgs self (vx self)).
    apply sub_self_finite. exact HT. }
  assert (Hs : exists s, n_I_snake self (vx self) / f_65536 = S754_zero s).
  { unfold n_I_snake.
    change (Vgdt_2 self (vx self)) with (Vgst_2 self).
    rewrite (sub_self_finite _ HA).
    destruct (n_snake self) as [sn|sn| |sn mn en]; try discriminate;
      eexists; reflexivity. }
  destruct Hs as [s Hs].
  assert (Hi : exists s', charge_increment self (vx self) = S754_zero s').
  { unfold charge_increment. rewrite Hs, Hv.
    destruct s; eexists; reflexivity. }
  split; [exact Hv|]. split; [exact Hi|].
  destruct Hi as [s' Hi].
  change (vc_new self (vx self))
    with (vc self + charge_increment self (vx self)).
  rewrite Hi. apply add_zero_r_sim_self.
Qed.

Lemma no_charge_between_equal_terminals_witness :
  F32.sim (vc_new fixed_gate (vx fixed_gate)) (vc fixed_gate).
Proof.
  apply (no_charge_between_equal_terminals fixed_gate); reflexivity.
Defined.

(** ** Lookups of a checked call *)

(** X11.  With assertions compiled in, a call that returns has looked up
    [vcr_n_Ids_term] at two arguments in [[0, 2^16)] and [opamp_rev] at an
    argument below [2^16], from a state and an input below [kVddt]. *)
Theorem checked_call_lookups_in_domain :
  forall (self : Integrator6581) (vi : float) (r : float * Integrator6581),
    F32.valid (vx self) = true ->
    F32.valid vi = true ->
    F32.valid (kVg self vi) = true ->
    solve false self vi = Some r ->
    ((f_0 <=? Vgs self vi) = true /\ (Vgs self vi <? f_1shl16) = true) /\
    ((f_0 <=? Vgd self vi) = true /\ (Vgd self vi <? f_1shl16) = true) /\
    (tmp self vi <? f_1shl16) = true /\
    (vx self <? kVddt self) = true /\ (vi <? kVddt self) = true /\
    vx (snd r) = output (opamp_rev self) (tmp self vi).
Proof.
  intros self vi r Vx Vi Vk H.
  rewrite solve_outcome in H. cbn [orb] in H.
  destruct (forallb (fun b => b) (solve_asserts self vi)) eqn:Ha;
    [|discriminate].
  inversion H; subst r; clear H.
  unfold solve_asserts in Ha. cbn [forallb] in Ha.
  rewrite !andb_true_iff in Ha.
  destruct Ha as (H1 & H2 & H3 & H4 & H5 & _).
  repeat split; try assumption.
  - unfold Vgs. apply clamp_nonneg; assumption.
  - unfold Vgd. apply clamp_nonneg; assumption.
Qed.

Lemma checked_call_lookups_in_domain_witness :
  (tmp (setVw golden f_0_5) f_0_2 <? f_1shl16) = true.
Proof.
  apply (checked_call_lookups_in_domain (setVw golden f_0_5) f_0_2
           (f_1shl15, solve_update (setVw golden f_0_5) f_0_2));
    vm_compute; reflexivity.
Defined.

(** ** C9: settling once the input voltage is reached *)





Section AtRest.

Variable NDEBUG : bool.
Variable b : Integrator6581.
Variable vi : float.

Hypothesis Hx : vx b = vi.
Hypothesis Hlook : output (opamp_rev b) (vc b / f_2 + f_1shl15) = vi.
Hypothesis Hzero : exists z, charge_increment b vi = S754_zero z.
Hypothesis Hret :
  NDEBUG || forallb (fun c => c) (solve_asserts b vi) = true.









End AtRest.




(** ** Remarks on the conditions of C3 and C8 *)

(** With [NDEBUG] a NaN argument reaches the op-amp table: the table with
    [output(NaN) = NaN], called with a NaN input, stores [vx = NaN], which
    is not below [kVddt]. *)
Lemma release_lookup_at_nan :
  solve true nan_passing f_nan = Some (f_nan, solve_update nan_passing f_nan)
  /\ tmp nan_passing f_nan = f_nan
  /\ vx (solve_update nan_passing f_nan) = f_nan
  /\ (vx (solve_update nan_passing f_nan)
      <? kVddt (solve_update nan_passing f_nan)) = false.
Proof.
  split; [apply solve_release_nan; reflexivity|].
  repeat split; vm_compute; reflexivity.
Qed.

(** On the regression instance the gate voltage is not the same after the
    exchange of the terminals, and the VCR current is not negated. *)
Lemma gate_voltage_not_exchanged :
  (kVg (exchanged_state (setVw golden f_0_5) f_0_2)
       (exchanged_input (setVw golden f_0_5) f_0_2)
   == kVg (setVw golden f_0_5) f_0_2) = false /\
  (n_I_vcr (exchanged_state (setVw golden f_0_5) f_0_2)
           (exchanged_input (setVw golden f_0_5) f_0_2)
   == F32.opp (n_I_vcr (setVw golden f_0_5) f_0_2)) = false.
Proof. split; vm_compute; reflexivity. Qed.
